(** * Playback synchronisation of the room video player

    A shallow embedding of the [VideoPlayer] React component
    (src/components/room/VideoPlayer.tsx and its near-duplicate inside
    src/components/room/UserPlaylists.tsx).

    Conventions of the embedding.

    - The component's [useState] cells and [useRef] cells are the fields
      of one record, [Component].  A handler is a function from the
      component it runs against to the updated component and the list of
      effects it performed on the outside world (player commands, toasts,
      console output, writes to the [video_rooms] table).
    - A handler that is bound again at every render (the [onReady] and
      [onStateChange] props of the player, the [onClick] of the buttons)
      reads the [useState] cells as they are when it is entered ([setX]
      only takes effect at the next render) and the [useRef] cells as they
      currently are.  No handler of the source reads a state cell after
      setting it, so plain sequencing is exact.
    - A function called from a callback that was registered once keeps
      reading the [useState] cells of the render that registered it.  The
      effect of [useEffect(..., [roomId])] (lines 46-90) runs in the first
      render: it issues the two fetches and registers the two channel
      callbacks, so [fetchInitialState], [fetchRoomPlaylist] and
      [handleVideoStateChange] always run as closures of that render.  The
      [setInterval] callback (lines 307-313) is a closure of the render
      that handled the [PLAYING] report.  Such a function takes the render
      it belongs to as an argument ([Render]); it reads the [useRef] cells
      of, and applies its setters to, the component as it is when it runs.
    - [Date.now()] is an argument: integer milliseconds.  A function that
      calls it twice takes two arguments.
    - Seconds of playback ([currentTime], [getCurrentTime()]) are JS
      numbers; they are embedded as binary64 floats, with the arithmetic
      and comparisons of IEEE 754.
    - [videoId] is typed [string] in the source, but every guard tests it
      for truthiness because the stored row may hold [null]; it is
      embedded as [option string], [None] being [null]. *)

From Stdlib Require Import PrimFloat.
From Stdlib Require Import ZArith List String Bool Arith Lia.
From Stdlib Require Import Permutation Sorted.
From Stdlib Require DecimalString.
Import ListNotations.

(* A decimal literal denotes the nearest double, as it does in JS. *)
#[local] Set Warnings "-inexact-float".

Local Open Scope float_scope.
Local Open Scope string_scope.
Local Open Scope list_scope.

(** ** Data model *)

Record VideoState : Type := mkVideoState {
  videoId : option string;
  isPlaying : bool;
  currentTime : float;
  timestamp : Z
}.

Record PlaylistItem : Type := mkPlaylistItem {
  item_id : string;
  video_id : string;
  title : string;
  position : Z
}.

(** [Partial<VideoState>] as the call sites build it: a key is present
    ([Some]) or absent ([None]); [timestamp] is never passed. *)
Record PartialVideoState : Type := mkPartial {
  p_videoId : option string;
  p_isPlaying : option bool;
  p_currentTime : option float
}.

(** [YouTube.PlayerState] *)
Inductive PlayerState : Type :=
| UNSTARTED | ENDED | PLAYING | PAUSED | BUFFERING | CUED.

(** Outcome of a query to the store: it failed, or it returned [data]. *)
Inductive FetchResult (A : Type) : Type :=
| FetchFailed
| FetchData (data : A).
Arguments FetchFailed {A}.
Arguments FetchData {A} data.

(** The two copies of the component differ in two constants only. *)
Record Config : Type := mkConfig {
  seekThreshold : float; (* [timeDiff > 3] / [timeDiff > 2] *)
  syncIntervalMs : Z     (* [setInterval(..., 15000)] / [..., 5000)] *)
}.

Definition VideoPlayer_tsx : Config :=
  {| seekThreshold := 3; syncIntervalMs := 15000 |}.
Definition UserPlaylists_tsx : Config :=
  {| seekThreshold := 2; syncIntervalMs := 5000 |}.

(** What a handler does to the outside world. *)
Inductive Effect : Type :=
| PlayVideo
| PauseVideo
| SeekTo (seconds : float) (allowSeekAhead : bool)
| SetVolume (v : Z)
| MuteCmd
| UnMuteCmd
| SetTimeout (ms : Z) (captured : VideoState)
| Toast (ttl description : string) (destructive : bool)
| ConsoleLog (msg : string)
| ConsoleError (msg : string)
| Publish (room : string) (video_state : VideoState).

(** The [useState] cells the functions of the component read.  A function
    created during a render reads the values these cells had in that
    render, also when it is called later. *)
Record Render : Type := mkRender {
  r_videoState : option VideoState;
  r_localIsPlaying : bool;
  r_playlist : list PlaylistItem
}.

(** The first render: the initial values of the cells (lines 35-43). *)
Definition mountRender : Render :=
  {| r_videoState := None; r_localIsPlaying := false; r_playlist := [] |}.

Record Component : Type := mkComponent {
  roomId : string;                        (* prop *)
  videoState : option VideoState;         (* useState, null at mount *)
  localIsPlaying : bool;
  isMuted : bool;
  isLoading : bool;
  isBuffering : bool;
  playerRef : option float;               (* the mounted player, with what
                                             getCurrentTime() returns *)
  syncIntervalRef : option Z;             (* live interval timer and its period *)
  syncIntervalClosure : option Render;    (* the render whose closure the
                                             live timer calls *)
  lastSyncTimeRef : Z;
  playlist : list PlaylistItem;
  currentVideoPosition : option nat
}.

Definition initial (room : string) : Component :=
  {| roomId := room; videoState := None; localIsPlaying := false;
     isMuted := false; isLoading := true; isBuffering := false;
     playerRef := None; syncIntervalRef := None; syncIntervalClosure := None;
     lastSyncTimeRef := 0; playlist := []; currentVideoPosition := None |}.

(** The render a component is in. *)
Definition renderOf (s : Component) : Render :=
  {| r_videoState := videoState s; r_localIsPlaying := localIsPlaying s;
     r_playlist := playlist s |}.

(** Setters, one per cell. *)
Definition setVideoState (v : option VideoState) (s : Component) : Component :=
  mkComponent (roomId s) v (localIsPlaying s) (isMuted s) (isLoading s)
    (isBuffering s) (playerRef s) (syncIntervalRef s) (syncIntervalClosure s)
    (lastSyncTimeRef s) (playlist s) (currentVideoPosition s).
Definition setLocalIsPlaying (b : bool) (s : Component) : Component :=
  mkComponent (roomId s) (videoState s) b (isMuted s) (isLoading s)
    (isBuffering s) (playerRef s) (syncIntervalRef s) (syncIntervalClosure s)
    (lastSyncTimeRef s) (playlist s) (currentVideoPosition s).
Definition setIsMuted (b : bool) (s : Component) : Component :=
  mkComponent (roomId s) (videoState s) (localIsPlaying s) b (isLoading s)
    (isBuffering s) (playerRef s) (syncIntervalRef s) (syncIntervalClosure s)
    (lastSyncTimeRef s) (playlist s) (currentVideoPosition s).
Definition setIsLoading (b : bool) (s : Component) : Component :=
  mkComponent (roomId s) (videoState s) (localIsPlaying s) (isMuted s) b
    (isBuffering s) (playerRef s) (syncIntervalRef s) (syncIntervalClosure s)
    (lastSyncTimeRef s) (playlist s) (currentVideoPosition s).
Definition setIsBuffering (b : bool) (s : Component) : Component :=
  mkComponent (roomId s) (videoState s) (localIsPlaying s) (isMuted s)
    (isLoading s) b (playerRef s) (syncIntervalRef s) (syncIntervalClosure s)
    (lastSyncTimeRef s) (playlist s) (currentVideoPosition s).
Definition setPlayerRef (p : option float) (s : Component) : Component :=
  mkComponent (roomId s) (videoState s) (localIsPlaying s) (isMuted s)
    (isLoading s) (isBuffering s) p (syncIntervalRef s) (syncIntervalClosure s)
    (lastSyncTimeRef s) (playlist s) (currentVideoPosition s).
Definition setSyncIntervalRef (t : option Z) (s : Component) : Component :=
  mkComponent (roomId s) (videoState s) (localIsPlaying s) (isMuted s)
    (isLoading s) (isBuffering s) (playerRef s) t (syncIntervalClosure s)
    (lastSyncTimeRef s) (playlist s) (currentVideoPosition s).
Definition setSyncIntervalClosure (r : option Render) (s : Component)
    : Component :=
  mkComponent (roomId s) (videoState s) (localIsPlaying s) (isMuted s)
    (isLoading s) (isBuffering s) (playerRef s) (syncIntervalRef s) r
    (lastSyncTimeRef s) (playlist s) (currentVideoPosition s).
Definition setLastSyncTimeRef (t : Z) (s : Component) : Component :=
  mkComponent (roomId s) (videoState s) (localIsPlaying s) (isMuted s)
    (isLoading s) (isBuffering s) (playerRef s) (syncIntervalRef s)
    (syncIntervalClosure s) t (playlist s) (currentVideoPosition s).
Definition setPlaylist (l : list PlaylistItem) (s : Component) : Component :=
  mkComponent (roomId s) (videoState s) (localIsPlaying s) (isMuted s)
    (isLoading s) (isBuffering s) (playerRef s) (syncIntervalRef s)
    (syncIntervalClosure s) (lastSyncTimeRef s) l (currentVideoPosition s).
Definition setCurrentVideoPosition (p : option nat) (s : Component) : Component :=
  mkComponent (roomId s) (videoState s) (localIsPlaying s) (isMuted s)
    (isLoading s) (isBuffering s) (playerRef s) (syncIntervalRef s)
    (syncIntervalClosure s) (lastSyncTimeRef s) (playlist s) p.

(** ** JavaScript helpers *)

(** Truthiness of a [string | null]: [null] and [""] are falsy. *)
Definition truthy (v : option string) : bool :=
  match v with
  | Some x => negb (x =? "")
  | None => false
  end.

(** [item.video_id === v] *)
Definition sameVideo (v : option string) (item : PlaylistItem) : bool :=
  match v with
  | Some x => video_id item =? x
  | None => false
  end.

(** [playlist.some(item => item.video_id === v)] *)
Definition isInPlaylist (pl : list PlaylistItem) (v : option string) : bool :=
  existsb (sameVideo v) pl.

(** [Array.prototype.findIndex]; [None] is the source's [-1]. *)
Fixpoint findIndex {A : Type} (f : A -> bool) (l : list A) : option nat :=
  match l with
  | [] => None
  | x :: r => if f x then Some O else option_map S (findIndex f r)
  end.

(** [a !== b] on [string | null] *)
Definition videoIdDiffers (a b : option string) : bool :=
  match a, b with
  | Some x, Some y => negb (x =? y)
  | None, None => false
  | _, _ => true
  end.

(** [newState.videoId !== videoState?.videoId]: with [videoState] null the
    right-hand side is [undefined], which differs from every [string | null]. *)
Definition videoChanged (newState : VideoState) (cur : option VideoState) : bool :=
  match cur with
  | Some vs => videoIdDiffers (videoId newState) (videoId vs)
  | None => true
  end.

(** [Math.abs(playerTime - remoteTime) > threshold] on doubles: rounded
    subtraction, and a comparison that is false when a side is [NaN]. *)
Definition driftExceeds (playerTime remoteTime threshold : float) : bool :=
  (threshold <? abs (playerTime - remoteTime))%float.

(** [playerRef.current?.getCurrentTime() || 0]: [0], [-0] and [NaN] are
    falsy. *)
Definition currentTimeOrZero (p : option float) : float :=
  match p with
  | Some t => if (t =? 0)%float || is_nan t then 0 else t
  | None => 0
  end.

(** [{ ...videoState, ...updateData, timestamp: Date.now() }] *)
Definition spread (vs : VideoState) (u : PartialVideoState) (now : Z) : VideoState :=
  {| videoId := match p_videoId u with Some v => Some v | None => videoId vs end;
     isPlaying := match p_isPlaying u with Some b => b | None => isPlaying vs end;
     currentTime := match p_currentTime u with Some t => t | None => currentTime vs end;
     timestamp := now |}.

Definition rejectLog : Effect :=
  ConsoleLog "Attempted to play video not in playlist:".
Definition rejectToast : Effect :=
  Toast "Can't play video" "This video is not in the room playlist" true.
Definition ignoreLog : Effect :=
  ConsoleLog "Ignoring state change for video not in playlist:".

(** ** Handlers *)

Section Engine.

Variable cfg : Config.

(** [videoState?.videoId]; [undefined] is falsy like [null]. *)
Definition currentVideoId (s : Component) : option string :=
  match videoState s with
  | Some vs => videoId vs
  | None => None
  end.

(** The index [updateCurrentVideoPosition] stores (lines 110-116). *)
Definition positionOf (pl : list PlaylistItem) (cur : option string)
    : option nat :=
  if negb (truthy cur) || (List.length pl =? 0)%nat then None
  else findIndex (sameVideo cur) pl.

(** [updateCurrentVideoPosition] (lines 109-117), as the effect of lines
    119-121 runs it: in the current render. *)
Definition updateCurrentVideoPosition (s : Component) : Component :=
  setCurrentVideoPosition (positionOf (playlist s) (currentVideoId s)) s.

(** [updateCurrentVideoPosition] (lines 109-117) called from a closure of
    render [r]. *)
Definition updateCurrentVideoPositionIn (r : Render) (s : Component)
    : Component :=
  setCurrentVideoPosition
    (positionOf (r_playlist r)
       (match r_videoState r with Some vs => videoId vs | None => None end))
    s.

(** The echo test of [handleVideoStateChange] (line 168). *)
Definition echoSuppressed (now : Z) (s : Component) : bool :=
  (now - lastSyncTimeRef s <? 1000)%Z.

(** The membership test of [handleVideoStateChange] (lines 173-179):
    true when the delivery is to be ignored. *)
Definition notInRoomPlaylist (newState : VideoState) (s : Component) : bool :=
  truthy (videoId newState)
  && (negb (isInPlaylist (playlist s) (videoId newState))
      && (0 <? List.length (playlist s))%nat).

(** [handleVideoStateChange] (lines 166-210), run in the current render. *)
Definition handleVideoStateChange (newState : VideoState) (now : Z)
    (s : Component) : Component * list Effect :=
  if echoSuppressed now s then (s, [])
  else if notInRoomPlaylist newState s then (s, [ignoreLog])
  else
    let s1 := setVideoState (Some newState) s in
    match playerRef s with
    | None => (s1, [])
    | Some playerTime =>
        if videoChanged newState (videoState s)
        then (setLocalIsPlaying (isPlaying newState) s1, [])
        else
          let '(s2, cmds) :=
            if negb (Bool.eqb (isPlaying newState) (localIsPlaying s))
            then (setLocalIsPlaying (isPlaying newState) s1,
                  [if isPlaying newState then PlayVideo else PauseVideo])
            else (s1, []) in
          if driftExceeds playerTime (currentTime newState) (seekThreshold cfg)
          then (s2, cmds ++ [SeekTo (currentTime newState) true])
          else (s2, cmds)
    end.

(** [handleVideoStateChange] (lines 166-210) as a closure of render [r]:
    [playlist], [videoState] and [localIsPlaying] are those of [r]; the
    two refs are read from the component the call runs against. *)
Definition handleVideoStateChangeIn (r : Render) (newState : VideoState)
    (now : Z) (s : Component) : Component * list Effect :=
  if echoSuppressed now s then (s, [])
  else if truthy (videoId newState)
          && (negb (isInPlaylist (r_playlist r) (videoId newState))
              && (0 <? List.length (r_playlist r))%nat)
  then (s, [ignoreLog])
  else
    let s1 := setVideoState (Some newState) s in
    match playerRef s with
    | None => (s1, [])
    | Some playerTime =>
        if videoChanged newState (r_videoState r)
        then (setLocalIsPlaying (isPlaying newState) s1, [])
        else
          let '(s2, cmds) :=
            if negb (Bool.eqb (isPlaying newState) (r_localIsPlaying r))
            then (setLocalIsPlaying (isPlaying newState) s1,
                  [if isPlaying newState then PlayVideo else PauseVideo])
            else (s1, []) in
          if driftExceeds playerTime (currentTime newState) (seekThreshold cfg)
          then (s2, cmds ++ [SeekTo (currentTime newState) true])
          else (s2, cmds)
    end.

(** [updateRoomVideoState] (lines 212-250), run in the current render.
    [now] is the [Date.now()] stored in [lastSyncTimeRef], [now'] the one
    stamped on the state. *)
Definition updateRoomVideoState (updateData : PartialVideoState)
    (now now' : Z) (s : Component) : Component * list Effect :=
  match videoState s with
  | None => (s, [])
  | Some vs =>
      if roomId s =? "" then (s, [])
      else if truthy (p_videoId updateData)
              && (0 <? List.length (playlist s))%nat
              && negb (isInPlaylist (playlist s) (p_videoId updateData))
      then (s, [rejectLog; rejectToast])
      else
        let updatedState := spread vs updateData now' in
        (setVideoState (Some updatedState) (setLastSyncTimeRef now s),
         [Publish (roomId s) updatedState])
  end.

(** [updateRoomVideoState] (lines 212-250) as a closure of render [r]:
    the state it tests and spreads and the playlist it checks are those
    of [r]. *)
Definition updateRoomVideoStateIn (r : Render) (updateData : PartialVideoState)
    (now now' : Z) (s : Component) : Component * list Effect :=
  match r_videoState r with
  | None => (s, [])
  | Some vs =>
      if roomId s =? "" then (s, [])
      else if truthy (p_videoId updateData)
              && (0 <? List.length (r_playlist r))%nat
              && negb (isInPlaylist (r_playlist r) (p_videoId updateData))
      then (s, [rejectLog; rejectToast])
      else
        let updatedState := spread vs updateData now' in
        (setVideoState (Some updatedState) (setLastSyncTimeRef now s),
         [Publish (roomId s) updatedState])
  end.

(** The [.then] callback of the write issued by [updateRoomVideoState]
    (lines 245-249). *)
Definition publishSettled (error : bool) (s : Component)
    : Component * list Effect :=
  if error then (s, [ConsoleError "Error updating video state:"]) else (s, []).

(** [playVideoFromPlaylist] (lines 404-423) *)
Definition playVideoFromPlaylist (v : string) (now now' : Z)
    (s : Component) : Component * list Effect :=
  if negb (isInPlaylist (playlist s) (Some v)) && (0 <? List.length (playlist s))%nat
  then (s, [rejectLog; rejectToast])
  else updateRoomVideoState
         {| p_videoId := Some v; p_isPlaying := Some true;
            p_currentTime := Some 0 |} now now' s.

(** The entry [playNextVideo] goes to, if any (lines 380-395). *)
Definition nextVideo (pl : list PlaylistItem) (pos : option nat)
    : option PlaylistItem :=
  match pos with
  | Some p =>
      if (List.length pl =? 0)%nat then None
      else nth_error pl ((p + 1) mod List.length pl)
  | None => nth_error pl 0
  end.

(** [playNextVideo] (lines 379-402) *)
Definition playNextVideo (now now' : Z) (s : Component)
    : Component * list Effect :=
  if (List.length (playlist s) =? 0)%nat
     || match currentVideoPosition s with None => true | Some _ => false end
  then
    if (0 <? List.length (playlist s))%nat then
      match nth_error (playlist s) 0 with
      | Some first =>
          let '(s1, e) := playVideoFromPlaylist (video_id first) now now' s in
          (s1, e ++ [Toast "Playlist restarted"
                       "Playing from the beginning of the playlist" false])
      | None => (s, [])
      end
    else (s, [])
  else
    match nextVideo (playlist s) (currentVideoPosition s) with
    | Some next =>
        let '(s1, e) := playVideoFromPlaylist (video_id next) now now' s in
        (s1, e ++ [Toast "Playing next" (title next) false])
    | None => (s, [])
    end.

(** The callback of the interval timer (lines 307-313).  It is a closure
    of the render that handled the [PLAYING] report: the [videoState] it
    tests and the [updateRoomVideoState] it calls are that render's;
    [playerRef] is read when it fires. *)
Definition syncIntervalFired (now now' : Z) (s : Component)
    : Component * list Effect :=
  match syncIntervalClosure s with
  | Some r =>
      match playerRef s, r_videoState r with
      | Some t, Some _ =>
          updateRoomVideoStateIn r
            {| p_videoId := None; p_isPlaying := None;
               p_currentTime := Some t |}
            now now' s
      | _, _ => (s, [])
      end
  | None => (s, [])
  end.

(** [onPlayerStateChange] (lines 287-355).  The timer started by a
    [PLAYING] report calls a closure of the render the report is handled
    in. *)
Definition onPlayerStateChange (st : PlayerState) (now now' : Z)
    (s : Component) : Component * list Effect :=
  match st with
  | PLAYING =>
      let s1 := setIsBuffering false (setLocalIsPlaying true s) in
      let '(s2, e) :=
        if negb (match videoState s with
                 | Some vs => isPlaying vs | None => false end)
        then updateRoomVideoState
               {| p_videoId := None; p_isPlaying := Some true;
                  p_currentTime := Some (currentTimeOrZero (playerRef s)) |}
               now now' s1
        else (s1, []) in
      (setSyncIntervalClosure (Some (renderOf s))
         (setSyncIntervalRef (Some (syncIntervalMs cfg)) s2), e)
  | PAUSED =>
      let s1 := setIsBuffering false (setLocalIsPlaying false s) in
      let '(s2, e) :=
        if match videoState s with
           | Some vs => isPlaying vs | None => false end
        then updateRoomVideoState
               {| p_videoId := None; p_isPlaying := Some false;
                  p_currentTime := Some (currentTimeOrZero (playerRef s)) |}
               now now' s1
        else (s1, []) in
      (setSyncIntervalClosure None (setSyncIntervalRef None s2), e)
  | BUFFERING => (setIsBuffering true s, [])
  | ENDED =>
      playNextVideo now now'
        (setSyncIntervalClosure None
           (setSyncIntervalRef None (setLocalIsPlaying false s)))
  | UNSTARTED | CUED => (s, [])
  end.

(** [onPlayerReady] (lines 252-285); [playerTime] is what the player that
    became ready reports as its current time. *)
Definition onPlayerReady (playerTime : float) (s : Component)
    : Component * list Effect :=
  let s1 := setIsLoading false (setPlayerRef (Some playerTime) s) in
  let e := SetVolume 70 :: (if isMuted s then [MuteCmd] else []) in
  match videoState s with
  | Some vs =>
      if isInPlaylist (playlist s) (videoId vs) || (List.length (playlist s) =? 0)%nat
      then (s1, e ++ [SetTimeout 500 vs])
      else (s1, e)
  | None => (s1, e)
  end.

(** The body of the [setTimeout] callback of [onPlayerReady]
    (lines 269-282), run on the [videoState] the callback captured. *)
Definition readyTimeoutFired (captured : VideoState) (s : Component)
    : Component * list Effect :=
  match playerRef s with
  | Some _ =>
      let adjustedTime :=
        if isPlaying captured then (currentTime captured + 1)%float
        else currentTime captured in
      (s, SeekTo adjustedTime true
            :: (if isPlaying captured then [PlayVideo] else []))
  | None => (s, [])
  end.

(** [togglePlayPause] (lines 357-365) *)
Definition togglePlayPause (s : Component) : Component * list Effect :=
  match playerRef s with
  | None => (s, [])
  | Some _ => (s, [if localIsPlaying s then PauseVideo else PlayVideo])
  end.

(** [toggleMute] (lines 367-377) *)
Definition toggleMute (s : Component) : Component * list Effect :=
  match playerRef s with
  | None => (s, [])
  | Some _ =>
      (setIsMuted (negb (isMuted s)) s,
       [if isMuted s then UnMuteCmd else MuteCmd])
  end.

(** [fetchInitialState] once the query has settled (lines 131-163), as a
    closure of render [r]; [data] is [data.video_state], [None] when the
    row holds none. *)
Definition fetchInitialState (r : Render)
    (res : FetchResult (option VideoState))
    (now now' : Z) (s : Component) : Component * list Effect :=
  let '(s1, e) :=
    match res with
    | FetchFailed => (s, [ConsoleError "Error fetching initial state:"])
    | FetchData None => (s, [])
    | FetchData (Some vs0) =>
        let accept :=
          setLocalIsPlaying (isPlaying vs0) (setVideoState (Some vs0) s) in
        if truthy (videoId vs0) then
          if isInPlaylist (r_playlist r) (videoId vs0)
             || (List.length (r_playlist r) =? 0)%nat
          then (accept, [])
          else if (0 <? List.length (r_playlist r))%nat then
            match nth_error (r_playlist r) 0 with
            | Some firstVideo =>
                updateRoomVideoStateIn r
                  {| p_videoId := Some (video_id firstVideo);
                     p_isPlaying := Some true;
                     p_currentTime := Some 0 |} now now' s
            | None => (s, [])
            end
          else (s, [])
        else (accept, [])
    end in
  (setIsLoading false s1, e).

(** [fetchRoomPlaylist] once the query has settled (lines 100-106), as a
    closure of render [r]; [data] is the rows ordered by [position],
    [None] for a null result. *)
Definition fetchRoomPlaylist (r : Render)
    (res : FetchResult (option (list PlaylistItem)))
    (s : Component) : Component * list Effect :=
  match res with
  | FetchFailed => (s, [ConsoleError "Error fetching room playlist:"])
  | FetchData None => (setPlaylist [] (updateCurrentVideoPositionIn r s), [])
  | FetchData (Some rows) =>
      (setPlaylist rows (updateCurrentVideoPositionIn r s), [])
  end.

(** ** The component as a transition system *)

Inductive Event : Type :=
| InitialStateFetched (r : FetchResult (option VideoState)) (now now' : Z)
| RoomPlaylistFetched (r : FetchResult (option (list PlaylistItem)))
| VideoStateChanged (newState : VideoState) (now : Z)
| PublishSettled (error : bool)
| PlayerReady (playerTime : float)
| PlayerClock (playerTime : float)
| PlayerStateChanged (st : PlayerState) (now now' : Z)
| ReadyTimeoutFired (captured : VideoState)
| SyncIntervalFired (now now' : Z)
| ClickPlayPause
| ClickSkip (now now' : Z)
| ClickMute.

(** The [<YouTube>] element and the control buttons are rendered only in
    the third branch of the JSX (lines 455-525). *)
Definition playerRendered (s : Component) : bool :=
  negb (isLoading s)
  && match videoState s with
     | Some vs => truthy (videoId vs)
     | None => false
     end.

(** When the environment can deliver an event. *)
Definition enabled (ev : Event) (s : Component) : bool :=
  match ev with
  | InitialStateFetched _ _ _ | RoomPlaylistFetched _ | VideoStateChanged _ _ =>
      negb (roomId s =? "")
  | PublishSettled _ => true
  | PlayerReady _ | PlayerStateChanged _ _ _ => playerRendered s
  | PlayerClock _ | ReadyTimeoutFired _ =>
      match playerRef s with Some _ => true | None => false end
  | SyncIntervalFired _ _ =>
      match syncIntervalRef s with Some _ => true | None => false end
  | ClickPlayPause | ClickSkip _ _ | ClickMute => playerRendered s
  end.

(** The handler each event runs.  The two fetches and the two channel
    callbacks belong to the effect of the first render (lines 46-90), so
    what they call runs as a closure of [mountRender]; the player's and
    the buttons' handlers run in the current render. *)
Definition dispatch (ev : Event) (s : Component) : Component * list Effect :=
  match ev with
  | InitialStateFetched r now now' => fetchInitialState mountRender r now now' s
  | RoomPlaylistFetched r => fetchRoomPlaylist mountRender r s
  | VideoStateChanged newState now =>
      handleVideoStateChangeIn mountRender newState now s
  | PublishSettled error => publishSettled error s
  | PlayerReady t => onPlayerReady t s
  | PlayerClock t => (setPlayerRef (Some t) s, [])
  | PlayerStateChanged st now now' => onPlayerStateChange st now now' s
  | ReadyTimeoutFired captured => readyTimeoutFired captured s
  | SyncIntervalFired now now' => syncIntervalFired now now' s
  | ClickPlayPause => togglePlayPause s
  | ClickSkip now now' => playNextVideo now now' s
  | ClickMute => toggleMute s
  end.

(** One event: its handler, then the render's effect
    [useEffect(updateCurrentVideoPosition, [videoState?.videoId, playlist])]. *)
Definition step (ev : Event) (s : Component) : Component * list Effect :=
  let '(s1, e) := dispatch ev s in (updateCurrentVideoPosition s1, e).

(** Events delivered in order; an event that cannot be delivered is dropped. *)
Fixpoint run (evs : list Event) (s : Component) : Component * list Effect :=
  match evs with
  | [] => (s, [])
  | ev :: rest =>
      if enabled ev s then
        let '(s1, e1) := step ev s in
        let '(s2, e2) := run rest s1 in
        (s2, e1 ++ e2)
      else run rest s
  end.

Inductive reachable (room : string) : Component -> Prop :=
| reach_initial : reachable room (initial room)
| reach_step : forall s ev,
    reachable room s -> enabled ev s = true ->
    reachable room (fst (step ev s)).

End Engine.

(** ** Observations on effect lists *)

Definition isPublish (e : Effect) : bool :=
  match e with Publish _ _ => true | _ => false end.

Definition isPlayerCommand (e : Effect) : bool :=
  match e with
  | PlayVideo | PauseVideo | SeekTo _ _ | SetVolume _ | MuteCmd | UnMuteCmd => true
  | _ => false
  end.

Definition isToast (e : Effect) : bool :=
  match e with Toast _ _ _ => true | _ => false end.

(** The writes to the shared state a handler issued. *)
Definition publishes (es : list Effect) : list Effect := filter isPublish es.

(** ** Definitions the statements use *)

(** As the specification words it: with a non-empty playlist the selected
    video is [null] or the video of some entry. *)
Definition specMembership (s : Component) : Prop :=
  playlist s <> [] ->
  forall vs, videoState s = Some vs ->
    videoId vs = None
    \/ exists item, In item (playlist s) /\ videoId vs = Some (video_id item).

(** As the guards of the source enforce it: the selected video is falsy
    ([null] or the empty string), or the playlist is empty, or the video
    is the video of some entry. *)
Definition membershipOk (s : Component) : bool :=
  match videoState s with
  | None => true
  | Some vs =>
      negb (truthy (videoId vs))
      || (List.length (playlist s) =? 0)%nat
      || isInPlaylist (playlist s) (videoId vs)
  end.

(** The invariant the guards maintain, as a proposition: with a non-empty
    playlist the selected video is [null], the empty string, or the video
    of some entry. *)
Definition enforcedMembership (s : Component) : Prop :=
  playlist s <> [] ->
  forall vs, videoState s = Some vs ->
    videoId vs = None \/ videoId vs = Some ""
    \/ exists item, In item (playlist s) /\ videoId vs = Some (video_id item).

(** What holds of every component the transition system reaches. *)
Definition wellFormed (room : string) (s : Component) : Prop :=
  roomId s = room
  /\ currentVideoPosition s = positionOf (playlist s) (currentVideoId s)
  /\ (videoState s = None -> playerRef s = None /\ syncIntervalRef s = None)
  /\ (videoState s <> None -> room <> "").

(** The events whose handler runs in the current render: what the player
    and the buttons report, and the callbacks that read no state cell.
    The others run a closure of an earlier render: the two fetches and
    the remote delivery (the first render), the interval timer (the
    render of the [PLAYING] report). *)
Definition localEvent (ev : Event) : bool :=
  match ev with
  | PublishSettled _ | PlayerReady _ | PlayerClock _
  | PlayerStateChanged _ _ _ | ReadyTimeoutFired _
  | ClickPlayPause | ClickSkip _ _ | ClickMute => true
  | InitialStateFetched _ _ _ | RoomPlaylistFetched _
  | VideoStateChanged _ _ | SyncIntervalFired _ _ => false
  end.

(** What a delivery that is past the echo test leaves behind when the
    channel callback handles it. *)
Definition delivered (newState : VideoState) (s : Component) : Component :=
  match playerRef s with
  | Some _ =>
      setLocalIsPlaying (isPlaying newState) (setVideoState (Some newState) s)
  | None => setVideoState (Some newState) s
  end.

(** The contract [next(playlist, currentVideoRef)]: the entry
    [playNextVideo] goes to when [currentVideoPosition] holds what
    [updateCurrentVideoPosition] computes for [currentVideoRef]. *)
Definition next (pl : list PlaylistItem) (cur : option string)
    : option PlaylistItem :=
  nextVideo pl (positionOf pl cur).

(** A selection of entry [e] that is written: the new state is held and
    published, then the toast is shown. *)
Definition advancedTo (e : PlaylistItem) (notice : Effect) (now now' : Z)
    (s : Component) : Component * list Effect :=
  (setVideoState (Some (mkVideoState (Some (video_id e)) true 0 now'))
     (setLastSyncTimeRef now s),
   [Publish (roomId s) (mkVideoState (Some (video_id e)) true 0 now');
    notice]).

(** What [playNextVideo] does when it picks entry [e]: it selects the
    entry's video through [playVideoFromPlaylist], then shows a toast. *)
Definition selecting (e : PlaylistItem) (notice : Effect) (now now' : Z)
    (s : Component) : Component * list Effect :=
  (fst (playVideoFromPlaylist (video_id e) now now' s),
   snd (playVideoFromPlaylist (video_id e) now now' s) ++ [notice]).

Definition restartToast : Effect :=
  Toast "Playlist restarted" "Playing from the beginning of the playlist" false.

(** The timer rule as the specification states it: every player report
    other than [PLAYING] leaves no interval timer behind. *)
Definition specTimerConfined (cfg : Config) : Prop :=
  forall s st now now',
    st <> PLAYING ->
    syncIntervalRef (fst (onPlayerStateChange cfg st now now' s)) = None.

(** The failure rule as the specification states it: a failed write shows
    the user a notice. *)
Definition specFailureNoticed : Prop :=
  forall s, existsb isToast (snd (publishSettled true s)) = true.

(** The no-op rule as the specification states it: without a shared state
    a skip has no effect at all. *)
Definition specSilentSkip : Prop :=
  forall s now now',
    videoState s = None -> playNextVideo now now' s = (s, []).

(** The next-entry rule as the specification states it: a current video
    found at index [i] is followed by the entry at [(i + 1) mod length]. *)
Definition specNextOfFound : Prop :=
  forall pl cur i,
    findIndex (sameVideo cur) pl = Some i ->
    next pl cur = nth_error pl ((i + 1) mod List.length pl).

(** ** Concrete rooms used in the examples *)

Definition itemA : PlaylistItem := mkPlaylistItem "1" "A" "Video A" 0.
Definition itemB : PlaylistItem := mkPlaylistItem "2" "B" "Video B" 1.
Definition itemC : PlaylistItem := mkPlaylistItem "3" "C" "Video C" 2.

(** A row whose [video_id] is the empty string. *)
Definition itemE : PlaylistItem := mkPlaylistItem "4" "" "Untitled" 1.

Definition pausedA : VideoState := mkVideoState (Some "A") false 0 0.

(** The room holds [A; B] and shows [A]; then [A] is removed. *)
Definition removalTrace : list Event :=
  [ RoomPlaylistFetched (FetchData (Some [itemA; itemB]));
    InitialStateFetched (FetchData (Some pausedA)) 0 0;
    RoomPlaylistFetched (FetchData (Some [itemB])) ].

Definition afterRemoval : Component :=
  fst (run VideoPlayer_tsx removalTrace (initial "room")).

(** The room holds [A; B] and shows [A]; the player becomes ready and the
    user starts it at time 10000, which publishes. *)
Definition playingTrace : list Event :=
  [ RoomPlaylistFetched (FetchData (Some [itemA; itemB]));
    InitialStateFetched (FetchData (Some pausedA)) 0 0;
    PlayerReady 0;
    PlayerStateChanged PLAYING 10000 10000 ].

Definition playingA : Component :=
  fst (run VideoPlayer_tsx playingTrace (initial "room")).

(** The component of [playingTrace] just before the user starts the
    player: the room is paused on [A] and the player is ready. *)
Definition readyA : Component :=
  fst (run VideoPlayer_tsx
         [ RoomPlaylistFetched (FetchData (Some [itemA; itemB]));
           InitialStateFetched (FetchData (Some pausedA)) 0 0;
           PlayerReady 0 ]
         (initial "room")).

(** The state [playingA] published at time 10000. *)
Definition publishedA : VideoState := mkVideoState (Some "A") true 0 10000.

(** A delivery for a video the playlist does not hold. *)
Definition strayState : VideoState := mkVideoState (Some "X") true 5 0.

(** [playingA] after the player has reported [BUFFERING]. *)
Definition bufferingA : Component :=
  fst (run VideoPlayer_tsx
         (playingTrace ++ [PlayerStateChanged BUFFERING 12000 12000])
         (initial "room")).

(** A component whose player stands at 10.0 s of video [A]. *)
Definition driftExample : Component :=
  setPlayerRef (Some 10) playingA.

(** The remote state of video [A] at [seconds] of elapsed time. *)
Definition remoteAt (seconds : float) : VideoState :=
  mkVideoState (Some "A") true seconds 20000.

(** A room whose playlist is empty and which holds a shared state. *)
Definition emptyRoom : Component :=
  setVideoState (Some pausedA) (initial "room").

(** A room with the given playlist that shows the given video. *)
Definition roomShowing (pl : list PlaylistItem) (v : option string)
    : Component :=
  setPlaylist pl
    (setVideoState (Some (mkVideoState v true 0 0)) (initial "room")).

(** A room with a playlist and no shared state. *)
Definition statelessRoom : Component := setPlaylist [itemA] (initial "room").

(** The playlist names each video once, and never by the empty string. *)
Definition distinctVideos (pl : list PlaylistItem) : Prop :=
  NoDup (map video_id pl) /\ forall item, In item pl -> video_id item <> "".

(** Events other than a [PLAYING] report of the player. *)
Definition notPlayingReport (ev : Event) : Prop :=
  forall now now', ev <> PlayerStateChanged PLAYING now now'.

(** The clicks on the skip button at the given clock readings. *)
Definition skips (times : list (Z * Z)) : list Event :=
  map (fun tt => ClickSkip (fst tt) (snd tt)) times.

(** * The room playlist panel

    [PlaylistPanel] (the panel component that lists the room playlist): the
    list it holds in [playlistItems] and what it asks of the store.  The
    store is outside the component; a query is taken to return what its
    text selects, and whether a write is refused is an argument. *)

Module PlaylistPanel.

(** [PlaylistItemType] of PlaylistItem.tsx *)
Record PlaylistItemType : Type := mkItem {
  id : string;
  video_id : string;
  title : string;
  position : Z;
  added_by : string
}.

Inductive Direction : Type := up | down.

(** What the panel does to the outside world. *)
Inductive Action : Type :=
| DeleteRow (row_id : string)
| UpdatePosition (row_id : string) (position : Z)
| FetchPlaylist
| LogError (msg : string)
| ShowToast (ttl description : string) (destructive : bool).

(** [array[i] = x] for an index inside the array. *)
Fixpoint setAt {A : Type} (i : nat) (x : A) (l : list A) : list A :=
  match l, i with
  | [], _ => []
  | _ :: r, O => x :: r
  | a :: r, S j => a :: setAt j x r
  end.

(** [{ ...item }] followed by [.position = p] *)
Definition withPosition (item : PlaylistItemType) (p : Z) : PlaylistItemType :=
  mkItem (id item) (video_id item) (title item) p (added_by item).

(** [item.id === itemId] *)
Definition hasId (itemId : string) (item : PlaylistItemType) : bool :=
  id item =? itemId.

(** [removeItem]: [deleteFailed] tells whether the store reported an error
    for the delete. *)
Definition removeItem (itemId : string) (deleteFailed : bool)
    (playlistItems : list PlaylistItemType)
    : list PlaylistItemType * list Action :=
  if deleteFailed
  then (playlistItems,
        [DeleteRow itemId; LogError "Error removing playlist item:";
         ShowToast "Error" "Failed to remove video" true])
  else (filter (fun item => negb (hasId itemId item)) playlistItems,
        [DeleteRow itemId;
         ShowToast "Removed" "Video removed from playlist" false]).

(** The index [moveItem] moves the item at [currentIndex] to. *)
Definition targetIndex (direction : Direction) (currentIndex : nat)
    (len : nat) : Z :=
  match direction with
  | up => Z.max 0 (Z.of_nat currentIndex - 1)
  | down => Z.min (Z.of_nat len - 1) (Z.of_nat currentIndex + 1)
  end.

(** [moveItem]: the list the panel then holds and what it asks of the
    store.  [thrownAt] is the index of the position write whose [await]
    threw, if one did; a write the store merely answers with an error
    does not throw. *)
Definition moveItem (itemId : string) (direction : Direction)
    (thrownAt : option nat) (playlistItems : list PlaylistItemType)
    : list PlaylistItemType * list Action :=
  match findIndex (hasId itemId) playlistItems with
  | None => (playlistItems, [])
  | Some currentIndex =>
      let newIndex :=
        targetIndex direction currentIndex (List.length playlistItems) in
      if (newIndex =? Z.of_nat currentIndex)%Z then (playlistItems, [])
      else
        match nth_error playlistItems currentIndex,
              nth_error playlistItems (Z.to_nat newIndex) with
        | Some itemToMove, Some displacedItem =>
            let updatedPlaylist :=
              setAt (Z.to_nat newIndex) (withPosition itemToMove newIndex)
                (setAt currentIndex
                   (withPosition displacedItem (Z.of_nat currentIndex))
                   playlistItems) in
            let updates :=
              [UpdatePosition (id itemToMove) newIndex;
               UpdatePosition (id displacedItem) (Z.of_nat currentIndex)] in
            (updatedPlaylist,
             match thrownAt with
             | Some n =>
                 if (n <? 2)%nat
                 then firstn (S n) updates
                      ++ [LogError "Error moving playlist item:";
                          FetchPlaylist;
                          ShowToast "Error" "Failed to reorder playlist" true]
                 else updates
             | None => updates
             end)
        | _, _ => (playlistItems, [])
        end
  end.

(** The first row of [.order('position', { ascending: false }).limit(1)]
    over rows with the given positions. *)
Fixpoint topPosition (positions : list Z) : option Z :=
  match positions with
  | [] => None
  | p :: r =>
      match topPosition r with
      | None => Some p
      | Some q => Some (Z.max p q)
      end
  end.

(** [(rows?.[0]?.position ?? -1) + 1] *)
Definition nextPosition (top : option Z) : Z :=
  (match top with Some p => p | None => -1 end) + 1.

(** A row of [user_playlist_items]. *)
Record UserPlaylistItem : Type := mkRow {
  row_playlist_id : string;
  row_user_id : string;
  row_video_id : string;
  row_title : string;
  row_position : Z
}.

(** [.eq('playlist_id', ...).eq('video_id', ...).eq('user_id', ...)] *)
Definition existingItems (table : list UserPlaylistItem)
    (playlistId videoId userId : string) : list UserPlaylistItem :=
  filter (fun r => (row_playlist_id r =? playlistId)
                   && (row_video_id r =? videoId)
                   && (row_user_id r =? userId)) table.

(** [.select('position').eq('playlist_id', ...)], ordered and limited. *)
Definition currentTop (table : list UserPlaylistItem) (playlistId : string)
    : option Z :=
  topPosition
    (map row_position
       (filter (fun r => row_playlist_id r =? playlistId) table)).

Section Save.

(** Whether the store refuses the insert of a row into a table. *)
Variable insertFails : list UserPlaylistItem -> UserPlaylistItem -> bool.

(** The [for] loop of [saveAllToUserPlaylist]: the table and the count of
    successful inserts after the remaining items. *)
Fixpoint saveLoop (userId playlistId : string)
    (items : list PlaylistItemType) (table : list UserPlaylistItem)
    (successCount : nat) : list UserPlaylistItem * nat :=
  match items with
  | [] => (table, successCount)
  | item :: rest =>
      match existingItems table playlistId (video_id item) userId with
      | _ :: _ => saveLoop userId playlistId rest table successCount
      | [] =>
          let row :=
            mkRow playlistId userId (video_id item) (title item)
              (nextPosition (currentTop table playlistId)) in
          if insertFails table row
          then saveLoop userId playlistId rest table successCount
          else saveLoop userId playlistId rest (table ++ [row])
                 (S successCount)
      end
  end.

(** [saveAllToUserPlaylist]: [user] is [user?.id], the table is
    [user_playlist_items]. *)
Definition saveAllToUserPlaylist (user : option string) (playlistId : string)
    (playlistItems : list PlaylistItemType) (table : list UserPlaylistItem)
    : list UserPlaylistItem * list Action :=
  match user with
  | None => (table, [])
  | Some userId =>
      if (playlistId =? "") || (List.length playlistItems =? 0)%nat
      then (table, [])
      else
        let '(table1, successCount) :=
          saveLoop userId playlistId playlistItems table 0 in
        (table1,
         [ShowToast "Success"
            (String.append "Added "
               (String.append
                  (DecimalString.NilZero.string_of_uint
                     (Nat.to_uint successCount))
                  " videos to your playlist"))
            false])
  end.

End Save.

(** A store that refuses no insert. *)
Definition neverFails (table : list UserPlaylistItem) (row : UserPlaylistItem)
    : bool := false.

(** A panel holding three videos at positions 0, 1, 2. *)
Definition song1 : PlaylistItemType := mkItem "i1" "A" "Video A" 0 "u1".
Definition song2 : PlaylistItemType := mkItem "i2" "B" "Video B" 1 "u1".
Definition song3 : PlaylistItemType := mkItem "i3" "C" "Video C" 2 "u2".
Definition threeSongs : list PlaylistItemType := [song1; song2; song3].

(** An item without its position. *)
Definition content (item : PlaylistItemType)
    : string * string * string * string :=
  (id item, video_id item, title item, added_by item).

(** Every item's [position] is its index in the list. *)
Definition dense (items : list PlaylistItemType) : Prop :=
  forall i item, nth_error items i = Some item -> position item = Z.of_nat i.

(** What one run of the loop adds. *)
Definition addedBy (userId playlistId : string)
    (items : list PlaylistItemType) (table added : list UserPlaylistItem)
    : Prop :=
  Forall (fun r =>
            row_playlist_id r = playlistId /\ row_user_id r = userId
            /\ (exists item, In item items
                             /\ row_video_id r = video_id item
                             /\ row_title r = title item)
            /\ existingItems table playlistId (row_video_id r) userId = []
            /\ forall old, In old table ->
                 row_playlist_id old = playlistId ->
                 (row_position old < row_position r)%Z) added
  /\ NoDup (map row_video_id added)
  /\ StronglySorted Z.lt (map row_position added).

End PlaylistPanel.

(** ** Proof automation *)

(** Closes [~ In e l] for an explicit list [l] none of whose members is [e]. *)
Ltac not_in :=
  let H := fresh "Hin" in
  unfold rejectToast, rejectLog, ignoreLog; intros H; simpl in H;
  repeat (destruct H as [H|H]; [discriminate H|]); exact H.

(** Splits on the innermost conditionals of the goal. *)
Ltac break_if :=
  match goal with
  | |- context [match ?b with _ => _ end] =>
      lazymatch b with
      | context [match _ with _ => _ end] => fail
      | _ => destruct b eqn:?
      end
  end.

Ltac break_handlers :=
  unfold fetchInitialState, fetchRoomPlaylist, handleVideoStateChangeIn,
    handleVideoStateChange, updateCurrentVideoPositionIn,
    publishSettled, onPlayerReady, onPlayerStateChange, readyTimeoutFired,
    syncIntervalFired, togglePlayPause, toggleMute, playNextVideo,
    playVideoFromPlaylist, updateRoomVideoStateIn, updateRoomVideoState;
  repeat (break_if; cbv beta iota zeta).

Ltac by_cases_on ev :=
  destruct ev as [r ? ?|r| | | | |st ? ?| | | | |];
  cbn [dispatch enabled] in *; try destruct st; break_handlers.

(** ** Basic facts *)

Lemma isInPlaylist_true_iff (pl : list PlaylistItem) (x : string) :
  isInPlaylist pl (Some x) = true <->
  exists item, In item pl /\ video_id item = x.
Proof.
  unfold isInPlaylist. rewrite existsb_exists. split.
  - intros [item [Hin Heq]]. exists item. split; [exact Hin|].
    now apply String.eqb_eq.
  - intros [item [Hin Heq]]. exists item. split; [exact Hin|].
    simpl. now apply String.eqb_eq.
Qed.

Lemma isInPlaylist_false_iff (pl : list PlaylistItem) (x : string) :
  isInPlaylist pl (Some x) = false <->
  forall item, In item pl -> video_id item <> x.
Proof.
  split.
  - intros Hf item Hin Heq.
    assert (isInPlaylist pl (Some x) = true) as Ht
      by (apply isInPlaylist_true_iff; eauto).
    congruence.
  - intros Hall. destruct (isInPlaylist pl (Some x)) eqn:E; [|reflexivity].
    apply isInPlaylist_true_iff in E. destruct E as [item [Hin Heq]].
    exfalso. exact (Hall item Hin Heq).
Qed.

Lemma nth_error_isInPlaylist (pl : list PlaylistItem) (n : nat) (item : PlaylistItem) :
  nth_error pl n = Some item -> isInPlaylist pl (Some (video_id item)) = true.
Proof.
  intros H. apply isInPlaylist_true_iff. exists item. split; [|reflexivity].
  eapply nth_error_In; eauto.
Qed.

Lemma length_eqb_zero {A : Type} (l : list A) :
  (List.length l =? 0)%nat = true <-> l = [].
Proof.
  destruct l; simpl; split; intros H; try reflexivity; discriminate.
Qed.

Lemma length_pos {A : Type} (l : list A) :
  (0 <? List.length l)%nat = true <-> l <> [].
Proof.
  destruct l; simpl; split; intros H; try discriminate; try congruence.
  reflexivity.
Qed.

Lemma findIndex_Some {A : Type} (f : A -> bool) (l : list A) (i : nat) :
  findIndex f l = Some i ->
  (i < List.length l)%nat
  /\ (exists x, nth_error l i = Some x /\ f x = true)
  /\ (forall j y, (j < i)%nat -> nth_error l j = Some y -> f y = false).
Proof.
  revert i. induction l as [|a l IH]; intros i H; simpl in H.
  - discriminate.
  - destruct (f a) eqn:Fa.
    + inversion H; subst. simpl. split; [lia|]. split.
      * exists a. auto.
      * intros j y Hj. lia.
    + destruct (findIndex f l) as [k|] eqn:E; simpl in H; [|discriminate].
      inversion H; subst. destruct (IH k eq_refl) as [Hlt [Hx Hmin]].
      split; [simpl; lia|]. split.
      * exact Hx.
      * intros j y Hj Hnth. destruct j as [|j]; simpl in Hnth.
        -- inversion Hnth; subst. exact Fa.
        -- apply (Hmin j y); [lia|exact Hnth].
Qed.

Lemma findIndex_None {A : Type} (f : A -> bool) (l : list A) :
  findIndex f l = None <-> existsb f l = false.
Proof.
  induction l as [|a l IH]; simpl.
  - tauto.
  - destruct (f a); simpl.
    + split; discriminate.
    + destruct (findIndex f l); simpl.
      * split; [discriminate|]. intros H. apply IH in H. discriminate.
      * split; intros _; [now apply IH | reflexivity].
Qed.

(** ** Local selection and the membership guard *)

Lemma updateRoomVideoState_no_state (u : PartialVideoState) (now now' : Z)
    (s : Component) :
  videoState s = None -> updateRoomVideoState u now now' s = (s, []).
Proof. intros H. unfold updateRoomVideoState. now rewrite H. Qed.

Lemma updateRoomVideoState_rejects (u : PartialVideoState) (now now' : Z)
    (s : Component) (vs : VideoState) (X : string) :
  videoState s = Some vs -> roomId s <> "" ->
  p_videoId u = Some X -> X <> "" ->
  playlist s <> [] -> isInPlaylist (playlist s) (Some X) = false ->
  updateRoomVideoState u now now' s = (s, [rejectLog; rejectToast]).
Proof.
  intros Hvs Hroom Hu HX Hpl Hnot. unfold updateRoomVideoState.
  rewrite Hvs, Hu, Hnot. simpl.
  apply String.eqb_neq in Hroom. rewrite Hroom.
  apply String.eqb_neq in HX. rewrite HX.
  apply length_pos in Hpl. rewrite Hpl. reflexivity.
Qed.

Lemma updateRoomVideoState_accepts (u : PartialVideoState) (now now' : Z)
    (s : Component) (vs : VideoState) :
  videoState s = Some vs -> roomId s <> "" ->
  truthy (p_videoId u) && (0 <? List.length (playlist s))%nat
    && negb (isInPlaylist (playlist s) (p_videoId u)) = false ->
  updateRoomVideoState u now now' s
  = (setVideoState (Some (spread vs u now')) (setLastSyncTimeRef now s),
     [Publish (roomId s) (spread vs u now')]).
Proof.
  intros Hvs Hroom Hguard. unfold updateRoomVideoState.
  rewrite Hvs, Hguard. apply String.eqb_neq in Hroom. now rewrite Hroom.
Qed.

(** The outcome of [updateRoomVideoState] is one of three. *)
Lemma updateRoomVideoState_cases (u : PartialVideoState) (now now' : Z)
    (s : Component) :
  updateRoomVideoState u now now' s = (s, [])
  \/ updateRoomVideoState u now now' s = (s, [rejectLog; rejectToast])
  \/ exists vs,
       videoState s = Some vs
       /\ truthy (p_videoId u) && (0 <? List.length (playlist s))%nat
            && negb (isInPlaylist (playlist s) (p_videoId u)) = false
       /\ updateRoomVideoState u now now' s
          = (setVideoState (Some (spread vs u now')) (setLastSyncTimeRef now s),
             [Publish (roomId s) (spread vs u now')]).
Proof.
  unfold updateRoomVideoState. destruct (videoState s) as [vs|]; [|now left].
  destruct (roomId s =? ""); [now left|].
  destruct (truthy (p_videoId u) && (0 <? List.length (playlist s))%nat
            && negb (isInPlaylist (playlist s) (p_videoId u))) eqn:G.
  - right; now left.
  - right; right. exists vs. auto.
Qed.

(** ** Closures *)

(** A closure of the render the component is in is the function run in
    the current render. *)
Lemma handleVideoStateChangeIn_renderOf (cfg : Config) (newState : VideoState)
    (now : Z) (s : Component) :
  handleVideoStateChangeIn cfg (renderOf s) newState now s
  = handleVideoStateChange cfg newState now s.
Proof. reflexivity. Qed.

Lemma updateRoomVideoStateIn_renderOf (u : PartialVideoState) (now now' : Z)
    (s : Component) :
  updateRoomVideoStateIn (renderOf s) u now now' s
  = updateRoomVideoState u now now' s.
Proof. reflexivity. Qed.

Lemma updateCurrentVideoPositionIn_renderOf (s : Component) :
  updateCurrentVideoPositionIn (renderOf s) s = updateCurrentVideoPosition s.
Proof. reflexivity. Qed.

(** What the channel callback does with a delivery: in the first render
    the playlist is empty and there is no state, so the membership test
    never rejects and the video always counts as changed. *)
Lemma handleVideoStateChangeIn_mount (cfg : Config) (newState : VideoState)
    (now : Z) (s : Component) :
  handleVideoStateChangeIn cfg mountRender newState now s
  = if echoSuppressed now s then (s, []) else (delivered newState s, []).
Proof.
  unfold handleVideoStateChangeIn, delivered, mountRender.
  cbn [r_playlist r_videoState r_localIsPlaying isInPlaylist existsb
       List.length Nat.ltb Nat.leb negb andb videoChanged].
  rewrite andb_false_r.
  destruct (echoSuppressed now s); [reflexivity|].
  now destruct (playerRef s).
Qed.

(** What the initial fetch does with its result, for the same reason. *)
Lemma fetchInitialState_mount (res : FetchResult (option VideoState))
    (now now' : Z) (s : Component) :
  fetchInitialState mountRender res now now' s
  = match res with
    | FetchFailed =>
        (setIsLoading false s, [ConsoleError "Error fetching initial state:"])
    | FetchData None => (setIsLoading false s, [])
    | FetchData (Some vs0) =>
        (setIsLoading false
           (setLocalIsPlaying (isPlaying vs0) (setVideoState (Some vs0) s)),
         [])
    end.
Proof.
  destruct res as [|[vs0|]]; try reflexivity.
  unfold fetchInitialState, mountRender.
  cbn [r_playlist isInPlaylist existsb List.length Nat.eqb orb].
  now destruct (truthy (videoId vs0)).
Qed.

Lemma fetchRoomPlaylist_mount (res : FetchResult (option (list PlaylistItem)))
    (s : Component) :
  fetchRoomPlaylist mountRender res s
  = match res with
    | FetchFailed => (s, [ConsoleError "Error fetching room playlist:"])
    | FetchData None => (setPlaylist [] (setCurrentVideoPosition None s), [])
    | FetchData (Some rows) =>
        (setPlaylist rows (setCurrentVideoPosition None s), [])
    end.
Proof. now destruct res as [|[rows|]]. Qed.

(** The interval callback with a player mounted, in a named room, when
    the render it belongs to held a state. *)
Lemma syncIntervalFired_publishes (s : Component) (r : Render)
    (vs : VideoState) (playerTime : float) (t t' : Z) :
  syncIntervalClosure s = Some r -> r_videoState r = Some vs ->
  roomId s <> "" -> playerRef s = Some playerTime ->
  syncIntervalFired t t' s
  = (setVideoState
       (Some (mkVideoState (videoId vs) (isPlaying vs) playerTime t'))
       (setLastSyncTimeRef t s),
     [Publish (roomId s)
        (mkVideoState (videoId vs) (isPlaying vs) playerTime t')]).
Proof.
  intros Hc Hr Hroom Hp. unfold syncIntervalFired, updateRoomVideoStateIn.
  rewrite Hc, Hp, Hr. apply String.eqb_neq in Hroom. rewrite Hroom.
  reflexivity.
Qed.

(** C2.  With a non-empty playlist that holds no entry for [X], selecting
    [X] through [playVideoFromPlaylist] is rejected with the destructive
    "Can't play video" toast, the component is left exactly as it was and
    nothing is written to the shared state; the guard inside
    [updateRoomVideoState] rejects the same way. *)
Theorem selection_outside_playlist_rejected :
  forall (s : Component) (X : string) (now now' : Z),
    playlist s <> [] ->
    (forall item, In item (playlist s) -> video_id item <> X) ->
    playVideoFromPlaylist X now now' s = (s, [rejectLog; rejectToast])
    /\ publishes (snd (playVideoFromPlaylist X now now' s)) = []
    /\ (forall u, p_videoId u = Some X -> X <> "" ->
          videoState s <> None -> roomId s <> "" ->
          updateRoomVideoState u now now' s = (s, [rejectLog; rejectToast])).
Proof.
  intros s X now now' Hpl Hnot.
  apply isInPlaylist_false_iff in Hnot.
  assert (playVideoFromPlaylist X now now' s = (s, [rejectLog; rejectToast])) as E.
  { unfold playVideoFromPlaylist. rewrite Hnot.
    apply length_pos in Hpl. now rewrite Hpl. }
  split; [exact E|]. split.
  - rewrite E. reflexivity.
  - intros u Hu HX Hvs Hroom.
    destruct (videoState s) as [vs|] eqn:V; [|congruence].
    eapply updateRoomVideoState_rejects; eauto.
Qed.

(** A delivery that passes both tests of [handleVideoStateChange]
    becomes the component's state; all it may do besides is command the
    player. *)
Lemma handleVideoStateChange_applied (cfg : Config) (newState : VideoState)
    (now : Z) (s : Component) :
  echoSuppressed now s = false -> notInRoomPlaylist newState s = false ->
  exists s1 cmds,
    handleVideoStateChange cfg newState now s = (s1, cmds)
    /\ videoState s1 = Some newState
    /\ playlist s1 = playlist s
    /\ lastSyncTimeRef s1 = lastSyncTimeRef s
    /\ syncIntervalRef s1 = syncIntervalRef s
    /\ playerRef s1 = playerRef s
    /\ roomId s1 = roomId s
    /\ forallb isPlayerCommand cmds = true.
Proof.
  intros E G. unfold handleVideoStateChange. rewrite E, G.
  destruct (playerRef s) as [t|] eqn:P.
  - destruct (videoChanged newState (videoState s)).
    + eexists; eexists; split; [reflexivity|]. cbn. rewrite P. tauto.
    + destruct (negb (Bool.eqb (isPlaying newState) (localIsPlaying s)));
        cbv zeta;
        destruct (driftExceeds t (currentTime newState) (seekThreshold cfg));
        destruct (isPlaying newState);
        (eexists; eexists; split; [reflexivity|]; cbn; rewrite P; tauto).
  - eexists; eexists; split; [reflexivity|]. cbn. rewrite P. tauto.
Qed.

Lemma forallb_playerCommand_not_in (e : Effect) (cmds : list Effect) :
  forallb isPlayerCommand cmds = true -> isPlayerCommand e = false ->
  ~ In e cmds.
Proof.
  intros Hall He Hin. rewrite forallb_forall in Hall.
  specialize (Hall e Hin). congruence.
Qed.

(** C3.  With an empty playlist neither guard rejects: a local selection
    of any video raises no rejection and, once a shared state exists, is
    written and published; a remote update carrying any video passes the
    membership test and, outside the echo window, becomes the component's
    state. *)
Theorem empty_playlist_accepts_any_video :
  forall (cfg : Config) (s : Component),
    playlist s = [] ->
    (forall X now now',
        ~ In rejectToast (snd (playVideoFromPlaylist X now now' s))
        /\ forall vs, videoState s = Some vs -> roomId s <> "" ->
             let st := mkVideoState (Some X) true 0 now' in
             playVideoFromPlaylist X now now' s
             = (setVideoState (Some st) (setLastSyncTimeRef now s),
                [Publish (roomId s) st]))
    /\ (forall u now now',
          ~ In rejectToast (snd (updateRoomVideoState u now now' s)))
    /\ (forall newState now,
          notInRoomPlaylist newState s = false
          /\ ~ In ignoreLog (snd (handleVideoStateChange cfg newState now s))
          /\ (echoSuppressed now s = false ->
              videoState (fst (handleVideoStateChange cfg newState now s))
              = Some newState)).
Proof.
  intros cfg s Hpl.
  assert (forall u now now',
             ~ In rejectToast (snd (updateRoomVideoState u now now' s))) as Hupd.
  { intros u now now'. unfold updateRoomVideoState. rewrite Hpl. simpl.
    rewrite andb_false_r. simpl.
    destruct (videoState s); [destruct (roomId s =? "")|]; simpl;
      not_in. }
  split; [|split].
  - intros X now now'. split.
    + unfold playVideoFromPlaylist. rewrite Hpl. simpl. apply Hupd.
    + intros vs Hvs Hroom st. unfold playVideoFromPlaylist. rewrite Hpl. simpl.
      rewrite (updateRoomVideoState_accepts _ now now' s vs Hvs Hroom).
      * reflexivity.
      * rewrite Hpl. simpl. now rewrite andb_false_r.
  - exact Hupd.
  - intros newState now.
    assert (notInRoomPlaylist newState s = false) as G.
    { unfold notInRoomPlaylist. rewrite Hpl. simpl. now rewrite andb_false_r. }
    split; [exact G|]. split.
    + unfold handleVideoStateChange. destruct (echoSuppressed now s) eqn:E.
      * intros H; exact H.
      * destruct (handleVideoStateChange_applied cfg newState now s E G)
          as [s1 [cmds [Heq [_ [_ [_ [_ [_ [_ Hall]]]]]]]]].
        unfold handleVideoStateChange in Heq. rewrite E in Heq.
        rewrite Heq. cbn [snd].
        now apply forallb_playerCommand_not_in.
    + intros E.
      destruct (handleVideoStateChange_applied cfg newState now s E G)
        as [s1 [cmds [Heq [Hvs _]]]].
      rewrite Heq. exact Hvs.
Qed.

(** ** Echo suppression *)

Lemma echoSuppressed_true_iff (now : Z) (s : Component) :
  echoSuppressed now s = true <-> (now - lastSyncTimeRef s < 1000)%Z.
Proof. unfold echoSuppressed. apply Z.ltb_lt. Qed.

Lemma echoSuppressed_false_iff (now : Z) (s : Component) :
  echoSuppressed now s = false <-> (1000 <= now - lastSyncTimeRef s)%Z.
Proof. unfold echoSuppressed. apply Z.ltb_ge. Qed.

Lemma delivered_videoState (newState : VideoState) (s : Component) :
  videoState (delivered newState s) = Some newState.
Proof. unfold delivered. now destruct (playerRef s). Qed.

Lemma updateRoomVideoState_records_time (u : PartialVideoState) (t t' : Z)
    (s : Component) :
  publishes (snd (updateRoomVideoState u t t' s)) <> [] ->
  lastSyncTimeRef (fst (updateRoomVideoState u t t' s)) = t.
Proof.
  destruct (updateRoomVideoState_cases u t t' s) as [C|[C|[vs [_ [_ C]]]]];
    rewrite C; cbn; congruence.
Qed.

(** C4.  The handler a delivery runs discards it, leaving the component
    as it is and doing nothing, exactly when the delivery arrives less than
    1000 ms after the time recorded at the last local publish: inside the
    window every delivery is discarded, and outside it every delivery is
    processed, becoming the state the component holds.  A local publish at
    [t] records [t], so a delivery at [t + 500] is discarded and the same
    delivery at [t + 1500] is processed. *)
Theorem echo_window_decides_discard :
  forall (cfg : Config) (s : Component) (now : Z),
    ((now - lastSyncTimeRef s < 1000)%Z <->
     forall newState,
       dispatch cfg (VideoStateChanged newState now) s = (s, []))
    /\ ((1000 <= now - lastSyncTimeRef s)%Z ->
        forall newState,
          dispatch cfg (VideoStateChanged newState now) s
          = (delivered newState s, []))
    /\ (forall u t t' newState,
          publishes (snd (updateRoomVideoState u t t' s)) <> [] ->
          let s1 := fst (updateRoomVideoState u t t' s) in
          lastSyncTimeRef s1 = t
          /\ dispatch cfg (VideoStateChanged newState (t + 500)) s1 = (s1, [])
          /\ dispatch cfg (VideoStateChanged newState (t + 1500)) s1
             = (delivered newState s1, [])).
Proof.
  intros cfg s now. cbn [dispatch]. split; [|split].
  - split.
    + intros H newState. apply echoSuppressed_true_iff in H.
      rewrite handleVideoStateChangeIn_mount. now rewrite H.
    + intros H. apply echoSuppressed_true_iff.
      destruct (echoSuppressed now s) eqn:E; [reflexivity|]. exfalso.
      pose proof (H (mkVideoState None false 0 0)) as H0.
      pose proof (H (mkVideoState None true 0 0)) as H1.
      rewrite handleVideoStateChangeIn_mount, E in H0, H1.
      apply (f_equal (fun p => videoState (fst p))) in H0, H1.
      cbn [fst] in H0, H1. rewrite delivered_videoState in H0, H1.
      congruence.
  - intros H newState. apply echoSuppressed_false_iff in H.
    rewrite handleVideoStateChangeIn_mount. now rewrite H.
  - intros u t t' newState Hpub.
    pose proof (updateRoomVideoState_records_time u t t' s Hpub) as L.
    cbv zeta. split; [exact L|].
    rewrite !handleVideoStateChangeIn_mount. unfold echoSuppressed.
    rewrite L.
    replace (t + 500 - t <? 1000)%Z with true
      by (symmetry; apply Z.ltb_lt; lia).
    replace (t + 1500 - t <? 1000)%Z with false
      by (symmetry; apply Z.ltb_ge; lia).
    split; reflexivity.
Qed.

(** ** Frame facts about the handlers *)

Lemma step_fst (cfg : Config) (ev : Event) (s : Component) :
  fst (step cfg ev s) = updateCurrentVideoPosition (fst (dispatch cfg ev s)).
Proof. unfold step. now destruct (dispatch cfg ev s). Qed.

Lemma step_snd (cfg : Config) (ev : Event) (s : Component) :
  snd (step cfg ev s) = snd (dispatch cfg ev s).
Proof. unfold step. now destruct (dispatch cfg ev s). Qed.

Lemma dispatch_roomId (cfg : Config) (ev : Event) (s : Component) :
  roomId (fst (dispatch cfg ev s)) = roomId s.
Proof.
  destruct ev as [r ? ?|r| | | | |st ? ?| | | | |]; cbn [dispatch];
    try destruct st; break_handlers; reflexivity.
Qed.

Lemma dispatch_keeps_state (cfg : Config) (ev : Event) (s : Component) :
  videoState (fst (dispatch cfg ev s)) = None -> videoState s = None.
Proof.
  by_cases_on ev; cbn; intros; congruence.
Qed.

Lemma dispatch_player_absent (cfg : Config) (ev : Event) (s : Component) :
  enabled ev s = true ->
  videoState (fst (dispatch cfg ev s)) = None ->
  playerRef s = None -> syncIntervalRef s = None ->
  playerRef (fst (dispatch cfg ev s)) = None
  /\ syncIntervalRef (fst (dispatch cfg ev s)) = None.
Proof.
  intros En Hn.
  pose proof (dispatch_keeps_state cfg ev s Hn) as H0.
  revert En Hn.
  by_cases_on ev; cbn; intros;
    try match goal with
        | H : playerRendered ?c = true, Hv : videoState ?c = None |- _ =>
            unfold playerRendered in H; rewrite Hv, andb_false_r in H;
            discriminate H
        end;
    try (split; congruence); try discriminate; try congruence.
Qed.

Lemma dispatch_state_needs_room (cfg : Config) (ev : Event) (s : Component) :
  enabled ev s = true ->
  videoState s = None ->
  videoState (fst (dispatch cfg ev s)) <> None ->
  roomId s <> "".
Proof.
  intros En H0. revert En.
  by_cases_on ev; cbn; rewrite ?H0; intros En Hs; cbn in *;
    try congruence;
    try (apply negb_true_iff in En; now apply String.eqb_neq in En);
    try match goal with
        | H : (roomId _ =? "") = false |- _ => now apply String.eqb_neq in H
        end.
Qed.

Lemma membershipOk_ext (s s1 : Component) :
  videoState s1 = videoState s -> playlist s1 = playlist s ->
  membershipOk s1 = membershipOk s.
Proof. intros Hv Hp. unfold membershipOk. now rewrite Hv, Hp. Qed.

Lemma updateRoomVideoState_playlist (u : PartialVideoState) (now now' : Z)
    (s : Component) :
  playlist (fst (updateRoomVideoState u now now' s)) = playlist s.
Proof. break_handlers; reflexivity. Qed.

Lemma updateRoomVideoState_membership (u : PartialVideoState) (now now' : Z)
    (s : Component) :
  membershipOk s = true ->
  membershipOk (fst (updateRoomVideoState u now now' s)) = true.
Proof.
  intros Hok.
  destruct (updateRoomVideoState_cases u now now' s) as [C|[C|[vs [Hvs [G C]]]]];
    rewrite C; cbn [fst]; try exact Hok.
  unfold membershipOk in *. rewrite Hvs in Hok.
  cbn [videoState playlist setVideoState setLastSyncTimeRef spread videoId].
  destruct (p_videoId u) as [v|]; [|exact Hok].
  destruct (truthy (Some v)); [|reflexivity].
  destruct (isInPlaylist (playlist s) (Some v)); [apply orb_true_r|].
  destruct (playlist s); [reflexivity|discriminate G].
Qed.

Lemma playVideoFromPlaylist_membership (v : string) (now now' : Z)
    (s : Component) :
  membershipOk s = true ->
  membershipOk (fst (playVideoFromPlaylist v now now' s)) = true.
Proof.
  intros Hok. unfold playVideoFromPlaylist.
  destruct (negb (isInPlaylist (playlist s) (Some v))
            && (0 <? List.length (playlist s))%nat); [exact Hok|].
  now apply updateRoomVideoState_membership.
Qed.

Lemma playVideoFromPlaylist_playlist (v : string) (now now' : Z)
    (s : Component) :
  playlist (fst (playVideoFromPlaylist v now now' s)) = playlist s.
Proof. break_handlers; reflexivity. Qed.

Lemma playNextVideo_membership (now now' : Z) (s : Component) :
  membershipOk s = true ->
  membershipOk (fst (playNextVideo now now' s)) = true.
Proof.
  intros Hok. unfold playNextVideo.
  assert (forall v (k : Component * list Effect -> Component * list Effect),
             (forall s1 e, fst (k (s1, e)) = s1) ->
             membershipOk (fst (k (playVideoFromPlaylist v now now' s))) = true)
    as Hplay.
  { intros v k Hk.
    pose proof (playVideoFromPlaylist_membership v now now' s Hok) as Hm.
    destruct (playVideoFromPlaylist v now now' s) as [s1 e].
    now rewrite Hk. }
  destruct ((List.length (playlist s) =? 0)%nat
            || match currentVideoPosition s with
               | None => true | Some _ => false end).
  - destruct (0 <? List.length (playlist s))%nat; [|exact Hok].
    destruct (nth_error (playlist s) 0) as [first|]; [|exact Hok].
    apply (Hplay (video_id first)
             (fun r => let '(s1, e) := r in
                       (s1, e ++ [Toast "Playlist restarted"
                                    "Playing from the beginning of the playlist"
                                    false]))).
    reflexivity.
  - destruct (nextVideo (playlist s) (currentVideoPosition s)) as [nxt|];
      [|exact Hok].
    apply (Hplay (video_id nxt)
             (fun r => let '(s1, e) := r in
                       (s1, e ++ [Toast "Playing next" (title nxt) false]))).
    reflexivity.
Qed.

Lemma playNextVideo_playlist (now now' : Z) (s : Component) :
  playlist (fst (playNextVideo now now' s)) = playlist s.
Proof. break_handlers; reflexivity. Qed.

Lemma dispatch_playlist (cfg : Config) (ev : Event) (s : Component) :
  (forall r, ev <> RoomPlaylistFetched r) ->
  playlist (fst (dispatch cfg ev s)) = playlist s.
Proof.
  intros Hev.
  destruct ev as [r ? ?|r| | | | |st ? ?| | | | |]; cbn [dispatch];
    try (exfalso; exact (Hev r eq_refl));
    try destruct st; break_handlers; reflexivity.
Qed.

Lemma onPlayerStateChange_membership (cfg : Config) (st : PlayerState)
    (now now' : Z) (s : Component) :
  membershipOk s = true ->
  membershipOk (fst (onPlayerStateChange cfg st now now' s)) = true.
Proof.
  intros Hok.
  assert (forall u c (k : Component -> Component),
             membershipOk c = true ->
             (forall x, membershipOk (k x) = membershipOk x) ->
             membershipOk
               (fst (let '(s2, e) := updateRoomVideoState u now now' c in
                     (k s2, e))) = true) as Hupd.
  { intros u c k Hc Hk.
    pose proof (updateRoomVideoState_membership u now now' c Hc) as Hm.
    destruct (updateRoomVideoState u now now' c) as [s2 e].
    cbn [fst] in *. now rewrite Hk. }
  destruct st; cbn [onPlayerStateChange]; try exact Hok.
  - apply playNextVideo_membership. exact Hok.
  - destruct (negb match videoState s with
                   | Some vs => isPlaying vs | None => false end).
    + apply Hupd; [exact Hok|reflexivity].
    + exact Hok.
  - destruct (match videoState s with
              | Some vs => isPlaying vs | None => false end).
    + apply Hupd; [exact Hok|reflexivity].
    + exact Hok.
Qed.

Lemma dispatch_membership (cfg : Config) (ev : Event) (s : Component) :
  localEvent ev = true ->
  membershipOk s = true ->
  membershipOk (fst (dispatch cfg ev s)) = true.
Proof.
  intros Hev Hok.
  destruct ev as [r ? ?|r| | | | |st ? ?| | | | |];
    try discriminate Hev; cbn [dispatch].
  - unfold publishSettled. now destruct error.
  - unfold onPlayerReady. repeat (break_if; cbv beta iota zeta); exact Hok.
  - exact Hok.
  - now apply onPlayerStateChange_membership.
  - unfold readyTimeoutFired. now destruct (playerRef s).
  - unfold togglePlayPause. now destruct (playerRef s).
  - now apply playNextVideo_membership.
  - unfold toggleMute. now destruct (playerRef s).
Qed.

Lemma membershipOk_iff (s : Component) :
  membershipOk s = true <-> enforcedMembership s.
Proof.
  unfold membershipOk, enforcedMembership. split.
  - intros Hok Hpl vs Hvs. rewrite Hvs in Hok.
    apply orb_true_iff in Hok. destruct Hok as [Hok|Hin].
    + apply orb_true_iff in Hok. destruct Hok as [Hf|Hlen].
      * destruct (videoId vs) as [x|]; [|now left]. right; left.
        cbn in Hf. apply negb_true_iff, negb_false_iff in Hf.
        apply String.eqb_eq in Hf. now subst.
      * apply length_eqb_zero in Hlen. contradiction.
    + destruct (videoId vs) as [x|] eqn:V.
      * apply isInPlaylist_true_iff in Hin. destruct Hin as [item [Hi He]].
        right; right. exists item. split; [exact Hi|now subst].
      * now left.
  - intros H. destruct (videoState s) as [vs|] eqn:Hvs; [|reflexivity].
    destruct (playlist s) as [|p l] eqn:Hpl.
    + cbn. now rewrite orb_true_r.
    + assert (p :: l <> []) as Hne by discriminate.
      destruct (H Hne vs eq_refl) as [Hn|[He|[item [Hi He]]]].
      * rewrite Hn. reflexivity.
      * rewrite He. reflexivity.
      * rewrite He. apply orb_true_iff. right.
        apply isInPlaylist_true_iff. eauto.
Qed.

Lemma step_membership (cfg : Config) (ev : Event) (s : Component) :
  localEvent ev = true ->
  enforcedMembership s ->
  enforcedMembership (fst (step cfg ev s))
  /\ playlist (fst (step cfg ev s)) = playlist s.
Proof.
  intros Hev Hinv. rewrite step_fst. split.
  - apply membershipOk_iff. apply membershipOk_iff in Hinv.
    rewrite (membershipOk_ext (fst (dispatch cfg ev s))); [|reflexivity..].
    now apply dispatch_membership.
  - cbn. apply dispatch_playlist. intros r ->. discriminate Hev.
Qed.


(** ** Reachability *)

Lemma run_fst (cfg : Config) (ev : Event) (rest : list Event) (s : Component) :
  fst (run cfg (ev :: rest) s)
  = if enabled ev s then fst (run cfg rest (fst (step cfg ev s)))
    else fst (run cfg rest s).
Proof.
  cbn [run]. destruct (enabled ev s); [|reflexivity].
  destruct (step cfg ev s) as [s1 e1]. cbn [fst].
  now destruct (run cfg rest s1).
Qed.

Lemma reachable_run (cfg : Config) (room : string) (evs : list Event) :
  forall s, reachable cfg room s -> reachable cfg room (fst (run cfg evs s)).
Proof.
  induction evs as [|ev rest IH]; intros s Hs.
  - exact Hs.
  - rewrite run_fst. destruct (enabled ev s) eqn:En.
    + apply IH. now apply reach_step.
    + now apply IH.
Qed.

Lemma reachable_wellFormed (cfg : Config) (room : string) (s : Component) :
  reachable cfg room s -> wellFormed room s.
Proof.
  induction 1 as [|s ev Hreach [Hroom [Hpos [Hnone Hsome]]] En].
  - unfold wellFormed. cbn. repeat split; try congruence.
  - rewrite step_fst. unfold wellFormed.
    cbn [updateCurrentVideoPosition roomId currentVideoPosition videoState
         playerRef syncIntervalRef playlist setCurrentVideoPosition
         currentVideoId].
    split; [|split; [|split]].
    + now rewrite dispatch_roomId.
    + reflexivity.
    + intros Hn. pose proof (dispatch_keeps_state cfg ev s Hn) as H0.
      destruct (Hnone H0) as [Hp Ht].
      now apply dispatch_player_absent.
    + intros Hs. destruct (videoState s) as [vs|] eqn:V.
      * apply Hsome. discriminate.
      * rewrite <- Hroom. eapply dispatch_state_needs_room; eauto.
Qed.

(** ** Auto-advance: the transition *)

Lemma playVideoFromPlaylist_member (v : string) (now now' : Z)
    (s : Component) (vs : VideoState) :
  isInPlaylist (playlist s) (Some v) = true ->
  videoState s = Some vs -> roomId s <> "" ->
  playVideoFromPlaylist v now now' s
  = (setVideoState (Some (mkVideoState (Some v) true 0 now'))
       (setLastSyncTimeRef now s),
     [Publish (roomId s) (mkVideoState (Some v) true 0 now')]).
Proof.
  intros Hin Hvs Hroom. unfold playVideoFromPlaylist. rewrite Hin.
  cbn [negb andb].
  rewrite (updateRoomVideoState_accepts _ now now' s vs Hvs Hroom).
  - reflexivity.
  - cbn [p_videoId]. rewrite Hin. apply andb_false_r.
Qed.

Lemma nextVideo_in_playlist (pl : list PlaylistItem) (pos : option nat)
    (nxt : PlaylistItem) :
  nextVideo pl pos = Some nxt -> isInPlaylist pl (Some (video_id nxt)) = true.
Proof.
  unfold nextVideo. destruct pos as [p|].
  - destruct (List.length pl =? 0)%nat; [discriminate|].
    apply nth_error_isInPlaylist.
  - apply nth_error_isInPlaylist.
Qed.

Lemma playNextVideo_advances (now now' : Z) (s : Component)
    (vs : VideoState) (nxt : PlaylistItem) :
  videoState s = Some vs -> roomId s <> "" ->
  nextVideo (playlist s) (currentVideoPosition s) = Some nxt ->
  exists notice,
    isToast notice = true
    /\ playNextVideo now now' s
       = (setVideoState (Some (mkVideoState (Some (video_id nxt)) true 0 now'))
            (setLastSyncTimeRef now s),
          [Publish (roomId s) (mkVideoState (Some (video_id nxt)) true 0 now');
           notice]).
Proof.
  intros Hvs Hroom Hnext.
  pose proof (nextVideo_in_playlist _ _ _ Hnext) as Hin.
  pose proof (playVideoFromPlaylist_member _ now now' s vs Hin Hvs Hroom) as Hplay.
  unfold playNextVideo.
  destruct (currentVideoPosition s) as [p|] eqn:P.
  - unfold nextVideo in Hnext.
    destruct (List.length (playlist s) =? 0)%nat eqn:L; [discriminate|].
    cbn [orb]. unfold nextVideo. rewrite L, Hnext, Hplay.
    eexists. split; [|reflexivity]. reflexivity.
  - cbn [nextVideo] in Hnext. rewrite orb_true_r.
    assert ((0 <? List.length (playlist s))%nat = true) as Hpos.
    { apply length_pos. intros E. rewrite E in Hnext. discriminate. }
    rewrite Hpos, Hnext, Hplay.
    eexists. split; [|reflexivity]. reflexivity.
Qed.

(** C6, as amended.  With [currentVideoPosition] as
    [updateCurrentVideoPosition] sets it, [playNextVideo] does nothing on
    an empty playlist; it selects the entry at index [(i + 1) mod length]
    and shows "Playing next" when the current video, a non-empty
    reference, is first found at index [i]; and it selects the first entry
    of a non-empty playlist and shows "Playlist restarted" when the
    current video is null, the empty string or not in the playlist.  The
    entry is the one [next] names.  In a named room that holds a shared
    state, selecting an entry of the playlist writes
    [{videoId: entry, isPlaying: true, currentTime: 0}]. *)
Theorem autoadvance_goes_to_next_entry :
  forall (s : Component) (now now' : Z),
    let s0 := updateCurrentVideoPosition s in
    let cur := currentVideoId s in
    (playlist s = [] ->
       next (playlist s) cur = None
       /\ playNextVideo now now' s0 = (s0, []))
    /\ (forall i, truthy cur = true ->
          findIndex (sameVideo cur) (playlist s) = Some i ->
          exists e,
            nth_error (playlist s) ((i + 1) mod List.length (playlist s))
            = Some e
            /\ next (playlist s) cur = Some e
            /\ playNextVideo now now' s0
               = selecting e (Toast "Playing next" (title e) false)
                   now now' s0)
    /\ (forall first rest, playlist s = first :: rest ->
          truthy cur = false \/ isInPlaylist (playlist s) cur = false ->
          next (playlist s) cur = Some first
          /\ playNextVideo now now' s0
             = selecting first restartToast now now' s0)
    /\ (forall e vs notice,
          In e (playlist s) -> videoState s = Some vs -> roomId s <> "" ->
          selecting e notice now now' s0 = advancedTo e notice now now' s0).
Proof.
  intros s now now' s0 cur.
  assert (currentVideoPosition s0 = positionOf (playlist s) cur) as Hpos
    by reflexivity.
  assert (playlist s0 = playlist s) as Hpl0 by reflexivity.
  split; [|split; [|split]].
  - intros Hpl. split.
    + unfold next, positionOf. rewrite Hpl. cbn. now rewrite orb_true_r.
    + unfold playNextVideo. rewrite Hpl0, Hpl. reflexivity.
  - intros i Ht Hi. destruct (findIndex_Some _ _ _ Hi) as [Hlt _].
    assert (List.length (playlist s) <> 0)%nat as Hne by lia.
    assert (positionOf (playlist s) cur = Some i) as Hp.
    { unfold positionOf. rewrite Ht. cbn [negb orb].
      apply Nat.eqb_neq in Hne. now rewrite Hne. }
    destruct (nth_error (playlist s) ((i + 1) mod List.length (playlist s)))
      as [e|] eqn:E.
    + exists e. split; [reflexivity|].
      apply Nat.eqb_neq in Hne.
      split.
      * unfold next. rewrite Hp. unfold nextVideo. now rewrite Hne.
      * unfold playNextVideo, selecting. rewrite Hpos, Hp, Hpl0, Hne.
        cbn [orb]. unfold nextVideo. rewrite Hne, E.
        now destruct (playVideoFromPlaylist (video_id e) now now' s0).
    + apply nth_error_None in E.
      pose proof (Nat.mod_upper_bound (i + 1) (List.length (playlist s)) Hne).
      lia.
  - intros first rest Hpl Hcase.
    assert (positionOf (playlist s) cur = None) as Hp.
    { unfold positionOf. destruct Hcase as [Hf|Hnot].
      - now rewrite Hf.
      - destruct (negb (truthy cur) || _); [reflexivity|].
        unfold isInPlaylist in Hnot. now apply findIndex_None. }
    split.
    + unfold next. rewrite Hp, Hpl. reflexivity.
    + unfold playNextVideo, selecting. rewrite Hpos, Hp, Hpl0, Hpl.
      rewrite orb_true_r. cbn [List.length Nat.ltb Nat.leb nth_error].
      now destruct (playVideoFromPlaylist (video_id first) now now' s0).
  - intros e vs notice Hin Hvs Hroom. unfold selecting, advancedTo.
    assert (isInPlaylist (playlist s0) (Some (video_id e)) = true) as Hmem
      by (apply isInPlaylist_true_iff; eauto).
    rewrite (playVideoFromPlaylist_member _ now now' s0 vs Hmem Hvs Hroom).
    reflexivity.
Qed.

(** C7.  When the player of a reachable component reports [ENDED] and the
    auto-advance contract yields an entry, the step makes
    [{videoId: entry.video_id, isPlaying: true, currentTime: 0}] the
    component's state, records the publish time, stops the interval timer
    and writes exactly that state to the shared row. *)
Theorem ended_advances_and_publishes :
  forall (cfg : Config) (room : string) (s : Component) (now now' : Z)
         (nxt : PlaylistItem),
    reachable cfg room s ->
    enabled (PlayerStateChanged ENDED now now') s = true ->
    next (playlist s) (currentVideoId s) = Some nxt ->
    videoState (fst (step cfg (PlayerStateChanged ENDED now now') s))
    = Some (mkVideoState (Some (video_id nxt)) true 0 now')
    /\ lastSyncTimeRef (fst (step cfg (PlayerStateChanged ENDED now now') s))
       = now
    /\ syncIntervalRef (fst (step cfg (PlayerStateChanged ENDED now now') s))
       = None
    /\ publishes (snd (step cfg (PlayerStateChanged ENDED now now') s))
       = [Publish room (mkVideoState (Some (video_id nxt)) true 0 now')].
Proof.
  intros cfg room s now now' nxt Hreach En Hnext.
  destruct (reachable_wellFormed _ _ _ Hreach) as [Hroom [Hpos [_ Hsome]]].
  cbn [enabled] in En. unfold playerRendered in En.
  apply andb_true_iff in En. destruct En as [_ En].
  destruct (videoState s) as [vs|] eqn:Hvs; [|discriminate].
  assert (room <> "") as Hne by (apply Hsome; discriminate).
  unfold next in Hnext. rewrite <- Hpos in Hnext.
  set (s0 := setSyncIntervalClosure None
                 (setSyncIntervalRef None (setLocalIsPlaying false s))).
  destruct (playNextVideo_advances now now' s0 vs nxt) as [notice [Ht Hplay]];
    try assumption.
  { cbn. now rewrite Hroom. }
  rewrite step_fst, step_snd. cbn [dispatch onPlayerStateChange].
  fold s0. rewrite Hplay. cbn [fst snd].
  repeat split; try reflexivity.
  destruct notice; try discriminate Ht. cbn. now rewrite Hroom.
Qed.

(** ** The periodic publish timer *)

Lemma dispatch_timer_stays_off (cfg : Config) (ev : Event) (s : Component) :
  (forall now now', ev <> PlayerStateChanged PLAYING now now') ->
  syncIntervalRef s = None ->
  syncIntervalRef (fst (dispatch cfg ev s)) = None.
Proof.
  intros Hev Hoff.
  destruct ev as [r ? ?|r| | | | |st now now'| | | | |]; cbn [dispatch];
    try (destruct st; try (exfalso; exact (Hev now now' eq_refl)));
    break_handlers; cbn; congruence.
Qed.

(** C9, as amended.  The interval timer is started when the player reports
    [PLAYING] and cancelled when it reports [PAUSED] or [ENDED]; the other
    player states, [BUFFERING] among them, leave it as it is.  Nothing but
    a [PLAYING] report starts it, and its callback cannot run while it is
    off. *)
Theorem sync_timer_follows_player_reports :
  forall (cfg : Config) (s : Component),
    (forall st now now',
        syncIntervalRef (fst (onPlayerStateChange cfg st now now' s))
        = match st with
          | PLAYING => Some (syncIntervalMs cfg)
          | PAUSED | ENDED => None
          | BUFFERING | UNSTARTED | CUED => syncIntervalRef s
          end)
    /\ (forall ev,
          (forall now now', ev <> PlayerStateChanged PLAYING now now') ->
          syncIntervalRef s = None ->
          syncIntervalRef (fst (step cfg ev s)) = None)
    /\ (forall now now',
          syncIntervalRef s = None ->
          enabled (SyncIntervalFired now now') s = false).
Proof.
  intros cfg s. split; [|split].
  - intros st now now'. destruct st; break_handlers; reflexivity.
  - intros ev Hev Hoff. rewrite step_fst. cbn.
    now apply dispatch_timer_stays_off.
  - intros now now' Hoff. cbn. now rewrite Hoff.
Qed.

(** ** Publishing without a shared state *)

Lemma playVideoFromPlaylist_no_state (v : string) (now now' : Z)
    (s : Component) :
  videoState s = None ->
  playVideoFromPlaylist v now now' s = (s, [])
  \/ playVideoFromPlaylist v now now' s = (s, [rejectLog; rejectToast]).
Proof.
  intros Hn. unfold playVideoFromPlaylist.
  rewrite updateRoomVideoState_no_state by exact Hn.
  destruct (negb (isInPlaylist (playlist s) (Some v))
            && (0 <? List.length (playlist s))%nat); auto.
Qed.

Lemma playNextVideo_no_state (now now' : Z) (s : Component) :
  videoState s = None ->
  fst (playNextVideo now now' s) = s
  /\ publishes (snd (playNextVideo now now' s)) = [].
Proof.
  intros Hn. unfold playNextVideo.
  destruct ((List.length (playlist s) =? 0)%nat
            || match currentVideoPosition s with
               | None => true | Some _ => false end).
  - destruct (0 <? List.length (playlist s))%nat; [|split; reflexivity].
    destruct (nth_error (playlist s) 0) as [first|]; [|split; reflexivity].
    destruct (playVideoFromPlaylist_no_state (video_id first) now now' s Hn)
      as [E|E]; rewrite E; split; reflexivity.
  - destruct (nextVideo (playlist s) (currentVideoPosition s)) as [nxt|];
      [|split; reflexivity].
    destruct (playVideoFromPlaylist_no_state (video_id nxt) now now' s Hn)
      as [E|E]; rewrite E; split; reflexivity.
Qed.

Lemma playNextVideo_no_state_toast (now now' : Z) (s : Component) :
  videoState s = None ->
  (playlist s = [] -> snd (playNextVideo now now' s) = [])
  /\ (playlist s <> [] ->
      exists notice,
        isToast notice = true /\ snd (playNextVideo now now' s) = [notice]).
Proof.
  intros Hn. split.
  - intros Hpl. unfold playNextVideo. now rewrite Hpl.
  - intros Hpl.
    assert (forall item, In item (playlist s) ->
              playVideoFromPlaylist (video_id item) now now' s = (s, [])) as Hplay.
    { intros item Hin. unfold playVideoFromPlaylist.
      replace (isInPlaylist (playlist s) (Some (video_id item))) with true
        by (symmetry; apply isInPlaylist_true_iff; eauto).
      cbn [negb andb]. now apply updateRoomVideoState_no_state. }
    unfold playNextVideo.
    apply length_pos in Hpl. rewrite Hpl.
    destruct (List.length (playlist s) =? 0)%nat eqn:L.
    { apply Nat.eqb_eq in L. apply Nat.ltb_lt in Hpl. lia. }
    cbn [orb].
    destruct (currentVideoPosition s) as [p|].
    + unfold nextVideo. rewrite L.
      apply Nat.eqb_neq in L.
      pose proof (Nat.mod_upper_bound (p + 1) (List.length (playlist s)) L)
        as Hlt.
      destruct (nth_error (playlist s) ((p + 1) mod List.length (playlist s)))
        as [nxt|] eqn:E; [|apply nth_error_None in E; lia].
      rewrite (Hplay nxt) by (eapply nth_error_In; eauto).
      eexists. split; [|reflexivity]. reflexivity.
    + destruct (nth_error (playlist s) 0) as [first|] eqn:E.
      * rewrite (Hplay first) by (eapply nth_error_In; eauto).
        eexists. split; [|reflexivity]. reflexivity.
      * apply nth_error_None in E. apply Nat.ltb_lt in Hpl. lia.
Qed.

(** C10, as amended.  While the component holds no shared state
    ([videoState] null), [updateRoomVideoState] returns at once, with the
    component unchanged and no effect.  What calls it therefore publishes
    nothing and leaves the shared state null, but does its own part: a
    selection leaves the component unchanged and shows the rejection toast
    exactly when the video is outside a non-empty playlist; a skip leaves
    the component unchanged and shows its one toast unless the playlist is
    empty; a player report sets the local flags and the timer as it always
    does.  In a reachable component the timer callback, the play/pause
    toggle and the mute toggle do nothing, and neither the timer nor the
    controls nor the player can raise an event. *)
Theorem no_shared_state_no_publish :
  forall (cfg : Config) (s : Component),
    videoState s = None ->
    (forall u now now', updateRoomVideoState u now now' s = (s, []))
    /\ (forall v now now',
          playVideoFromPlaylist v now now' s
          = (s, if negb (isInPlaylist (playlist s) (Some v))
                   && (0 <? List.length (playlist s))%nat
                then [rejectLog; rejectToast] else []))
    /\ (forall now now',
          fst (playNextVideo now now' s) = s
          /\ (playlist s = [] -> snd (playNextVideo now now' s) = [])
          /\ (playlist s <> [] ->
              exists notice,
                isToast notice = true
                /\ snd (playNextVideo now now' s) = [notice]))
    /\ (forall now now',
          onPlayerStateChange cfg PLAYING now now' s
          = (setSyncIntervalClosure (Some (renderOf s))
               (setSyncIntervalRef (Some (syncIntervalMs cfg))
                  (setIsBuffering false (setLocalIsPlaying true s))), [])
          /\ onPlayerStateChange cfg PAUSED now now' s
             = (setSyncIntervalClosure None
                  (setSyncIntervalRef None
                     (setIsBuffering false (setLocalIsPlaying false s))), [])
          /\ onPlayerStateChange cfg BUFFERING now now' s
             = (setIsBuffering true s, [])
          /\ fst (onPlayerStateChange cfg ENDED now now' s)
             = setSyncIntervalClosure None
                 (setSyncIntervalRef None (setLocalIsPlaying false s))
          /\ publishes (snd (onPlayerStateChange cfg ENDED now now' s)) = []
          /\ onPlayerStateChange cfg UNSTARTED now now' s = (s, [])
          /\ onPlayerStateChange cfg CUED now now' s = (s, []))
    /\ (forall room, reachable cfg room s ->
          (forall now now',
              syncIntervalFired now now' s = (s, [])
              /\ enabled (SyncIntervalFired now now') s = false
              /\ enabled (ClickSkip now now') s = false
              /\ forall st, enabled (PlayerStateChanged st now now') s = false)
          /\ togglePlayPause s = (s, [])
          /\ toggleMute s = (s, [])
          /\ enabled ClickPlayPause s = false
          /\ enabled ClickMute s = false).
Proof.
  intros cfg s Hn.
  split; [|split; [|split; [|split]]].
  - intros u now now'. now apply updateRoomVideoState_no_state.
  - intros v now now'. unfold playVideoFromPlaylist.
    rewrite updateRoomVideoState_no_state by exact Hn.
    now destruct (negb (isInPlaylist (playlist s) (Some v))
                  && (0 <? List.length (playlist s))%nat).
  - intros now now'. split; [now apply playNextVideo_no_state|].
    now apply playNextVideo_no_state_toast.
  - intros now now'.
    set (s0 := setSyncIntervalClosure None
                 (setSyncIntervalRef None (setLocalIsPlaying false s))).
    assert (videoState s0 = None) as Hn0 by exact Hn.
    destruct (playNextVideo_no_state now now' s0 Hn0) as [Hs Hp].
    cbn [onPlayerStateChange]. fold s0. rewrite Hn. cbn [negb].
    rewrite !updateRoomVideoState_no_state by (cbn; exact Hn).
    repeat split; assumption.
  - intros room Hreach.
    destruct (reachable_wellFormed _ _ _ Hreach) as [_ [_ [Hnone _]]].
    destruct (Hnone Hn) as [Hp Ht].
    unfold togglePlayPause, toggleMute, syncIntervalFired.
    rewrite Hp. cbn [enabled]. unfold playerRendered.
    rewrite Hn, Ht, andb_false_r.
    repeat split; try reflexivity.
    now destruct (syncIntervalClosure s).
Qed.

(** ** Failure of the write *)

(** C8, as amended.  When the write issued by [updateRoomVideoState]
    fails, the component still holds the state that was just set and is
    left untouched by the failure; the failure is written to the console
    and no second write is issued. *)
Theorem failed_publish_logged_not_rolled_back :
  forall (u : PartialVideoState) (now now' : Z) (s : Component)
         (room : string) (st : VideoState),
    snd (updateRoomVideoState u now now' s) = [Publish room st] ->
    videoState (fst (updateRoomVideoState u now now' s)) = Some st
    /\ publishSettled true (fst (updateRoomVideoState u now now' s))
       = (fst (updateRoomVideoState u now now' s),
          [ConsoleError "Error updating video state:"]).
Proof.
  intros u now now' s room st Hpub. split; [|reflexivity].
  destruct (updateRoomVideoState_cases u now now' s) as [C|[C|[vs [_ [_ C]]]]];
    rewrite C in *; cbn in *; try discriminate.
  now inversion Hpub.
Qed.

(** ** The rules on concrete rooms *)



Lemma selection_outside_playlist_rejected_witness :
  playlist playingA <> []
  /\ playVideoFromPlaylist "X" 20000 20000 playingA
     = (playingA, [rejectLog; rejectToast]).
Proof.
  assert (playlist playingA <> []) as Hne by discriminate.
  split; [exact Hne|].
  apply (selection_outside_playlist_rejected playingA "X" 20000 20000 Hne).
  intros item Hin. vm_compute in Hin.
  destruct Hin as [Hi|[Hi|[]]]; subst item; discriminate.
Defined.

Lemma empty_playlist_accepts_any_video_witness :
  playlist emptyRoom = []
  /\ playVideoFromPlaylist "X" 7 8 emptyRoom
     = (setVideoState (Some (mkVideoState (Some "X") true 0 8))
          (setLastSyncTimeRef 7 emptyRoom),
        [Publish "room" (mkVideoState (Some "X") true 0 8)])
  /\ videoState (fst (handleVideoStateChange VideoPlayer_tsx strayState 5000
                        emptyRoom))
     = Some strayState.
Proof.
  destruct (empty_playlist_accepts_any_video VideoPlayer_tsx emptyRoom eq_refl)
    as [Hlocal [_ Hremote]].
  split; [reflexivity|]. split.
  - apply (proj2 (Hlocal "X" 7%Z 8%Z) pausedA); [reflexivity|discriminate].
  - apply (Hremote strayState 5000%Z). reflexivity.
Defined.

Lemma echo_window_decides_discard_witness :
  lastSyncTimeRef playingA = 10000%Z
  /\ dispatch VideoPlayer_tsx (VideoStateChanged publishedA 10500) playingA
     = (playingA, [])
  /\ dispatch VideoPlayer_tsx (VideoStateChanged publishedA 11500) playingA
     = (delivered publishedA playingA, [])
  /\ dispatch VideoPlayer_tsx (VideoStateChanged strayState 11500) playingA
     = (delivered strayState playingA, []).
Proof.
  assert (lastSyncTimeRef playingA = 10000%Z) as L by reflexivity.
  destruct (echo_window_decides_discard VideoPlayer_tsx playingA 10500)
    as [[Hin _] _].
  destruct (echo_window_decides_discard VideoPlayer_tsx playingA 11500)
    as [_ [Hout _]].
  split; [exact L|]. split; [|split].
  - apply Hin. rewrite L. lia.
  - apply Hout. rewrite L. lia.
  - apply Hout. rewrite L. lia.
Defined.

(** C5.  The player of a reachable component stands at 10.0 s of video [A]
    and a delivery for [A] at 13.1 s arrives 10 s after the last local
    publish, so it is not an echo and the drift, about 3.1 s, exceeds the
    threshold of either copy of the component.  The handler the delivery
    runs replaces the state and sends the player nothing; the body of
    [handleVideoStateChange] run in the current render would send the
    seek to 13.1 s. *)
Theorem drift_above_threshold_gets_no_seek :
  reachable VideoPlayer_tsx "room" driftExample
  /\ enabled (VideoStateChanged (remoteAt 13.1) 20000) driftExample = true
  /\ playerRef driftExample = Some 10
  /\ currentVideoId driftExample = Some "A"
  /\ echoSuppressed 20000 driftExample = false
  /\ driftExceeds 10 13.1 (seekThreshold VideoPlayer_tsx) = true
  /\ driftExceeds 10 13.1 (seekThreshold UserPlaylists_tsx) = true
  /\ step VideoPlayer_tsx (VideoStateChanged (remoteAt 13.1) 20000)
       driftExample
     = (setVideoState (Some (remoteAt 13.1)) driftExample, [])
  /\ step UserPlaylists_tsx (VideoStateChanged (remoteAt 13.1) 20000)
       driftExample
     = (setVideoState (Some (remoteAt 13.1)) driftExample, [])
  /\ snd (handleVideoStateChange VideoPlayer_tsx (remoteAt 13.1) 20000
            driftExample)
     = [SeekTo 13.1 true].
Proof.
  split;
    [|repeat match goal with |- _ /\ _ => split end;
      vm_compute; reflexivity].
  replace driftExample
    with (fst (run VideoPlayer_tsx (playingTrace ++ [PlayerClock 10])
                 (initial "room")))
    by (vm_compute; reflexivity).
  apply reachable_run, reach_initial.
Qed.

Lemma autoadvance_goes_to_next_entry_witness :
  playNextVideo 5 6
    (updateCurrentVideoPosition
       (roomShowing [itemA; itemB; itemC] (Some "B")))
  = selecting itemC (Toast "Playing next" "Video C" false) 5 6
      (updateCurrentVideoPosition
         (roomShowing [itemA; itemB; itemC] (Some "B")))
  /\ playNextVideo 5 6
       (updateCurrentVideoPosition
          (roomShowing [itemA; itemB; itemC] (Some "C")))
     = selecting itemA (Toast "Playing next" "Video A" false) 5 6
         (updateCurrentVideoPosition
            (roomShowing [itemA; itemB; itemC] (Some "C")))
  /\ playNextVideo 5 6
       (updateCurrentVideoPosition
          (roomShowing [itemA; itemB; itemC] (Some "X")))
     = selecting itemA restartToast 5 6
         (updateCurrentVideoPosition
            (roomShowing [itemA; itemB; itemC] (Some "X")))
  /\ playNextVideo 5 6
       (updateCurrentVideoPosition (roomShowing [] (Some "B")))
     = (updateCurrentVideoPosition (roomShowing [] (Some "B")), [])
  /\ selecting itemC (Toast "Playing next" "Video C" false) 5 6
       (updateCurrentVideoPosition
          (roomShowing [itemA; itemB; itemC] (Some "B")))
     = advancedTo itemC (Toast "Playing next" "Video C" false) 5 6
         (updateCurrentVideoPosition
            (roomShowing [itemA; itemB; itemC] (Some "B"))).
Proof.
  split; [|split; [|split; [|split]]].
  - destruct (autoadvance_goes_to_next_entry
                (roomShowing [itemA; itemB; itemC] (Some "B")) 5 6)
      as [_ [Hfound _]].
    destruct (Hfound 1%nat eq_refl eq_refl) as [e [He [_ Hp]]].
    vm_compute in He. inversion He; subst e. exact Hp.
  - destruct (autoadvance_goes_to_next_entry
                (roomShowing [itemA; itemB; itemC] (Some "C")) 5 6)
      as [_ [Hfound _]].
    destruct (Hfound 2%nat eq_refl eq_refl) as [e [He [_ Hp]]].
    vm_compute in He. inversion He; subst e. exact Hp.
  - destruct (autoadvance_goes_to_next_entry
                (roomShowing [itemA; itemB; itemC] (Some "X")) 5 6)
      as [_ [_ [Hrest _]]].
    apply (Hrest itemA [itemB; itemC] eq_refl). right. reflexivity.
  - destruct (autoadvance_goes_to_next_entry
                (roomShowing [] (Some "B")) 5 6) as [H _].
    apply (H eq_refl).
  - destruct (autoadvance_goes_to_next_entry
                (roomShowing [itemA; itemB; itemC] (Some "B")) 5 6)
      as [_ [_ [_ Hsel]]].
    apply (Hsel itemC (mkVideoState (Some "B") true 0 0)).
    + right; right; left; reflexivity.
    + reflexivity.
    + discriminate.
Defined.

(** C6: the current video is the empty string and the second entry of
    the playlist carries it, so it is found at index 1; the entry that
    follows is the third, but the empty string is falsy, no position is
    recorded and [playNextVideo] restarts the playlist. *)
Lemma empty_reference_restarts_the_playlist :
  findIndex (sameVideo (Some "")) [itemA; itemE; itemC] = Some 1%nat
  /\ nth_error [itemA; itemE; itemC] ((1 + 1) mod 3) = Some itemC
  /\ next [itemA; itemE; itemC] (Some "") = Some itemA
  /\ playNextVideo 5 6
       (updateCurrentVideoPosition
          (roomShowing [itemA; itemE; itemC] (Some "")))
     = advancedTo itemA restartToast 5 6
         (updateCurrentVideoPosition
            (roomShowing [itemA; itemE; itemC] (Some "")))
  /\ ~ specNextOfFound.
Proof.
  repeat split; try reflexivity.
  intros H.
  specialize (H [itemA; itemE; itemC] (Some "") 1%nat eq_refl).
  vm_compute in H. discriminate H.
Qed.

Lemma ended_advances_and_publishes_witness :
  next (playlist playingA) (currentVideoId playingA) = Some itemB
  /\ publishes (snd (step VideoPlayer_tsx (PlayerStateChanged ENDED 90000 90001)
                       playingA))
     = [Publish "room" (mkVideoState (Some "B") true 0 90001)].
Proof.
  split; [reflexivity|].
  apply (ended_advances_and_publishes VideoPlayer_tsx "room" playingA
           90000 90001 itemB).
  - unfold playingA. apply reachable_run, reach_initial.
  - reflexivity.
  - reflexivity.
Defined.

(** C8: the write of [playingA] fails; the only effect is a line on the
    console, no toast. *)
Lemma failed_publish_shows_no_notice :
  snd (publishSettled true playingA)
  = [ConsoleError "Error updating video state:"]
  /\ existsb isToast (snd (publishSettled true playingA)) = false
  /\ ~ specFailureNoticed.
Proof.
  split; [reflexivity|]. split; [reflexivity|].
  intros H. specialize (H playingA). discriminate H.
Qed.

Lemma failed_publish_logged_not_rolled_back_witness :
  videoState
    (fst (updateRoomVideoState (mkPartial None (Some false) (Some 42)) 30000
            30001 playingA))
  = Some (mkVideoState (Some "A") false 42 30001).
Proof.
  apply (failed_publish_logged_not_rolled_back
           (mkPartial None (Some false) (Some 42)) 30000 30001 playingA "room"
           (mkVideoState (Some "A") false 42 30001)).
  reflexivity.
Defined.

(** C9: the playing component receives [BUFFERING]; the timer stays live,
    its callback is deliverable and it publishes. *)
Lemma buffering_keeps_the_timer :
  syncIntervalRef
    (fst (onPlayerStateChange VideoPlayer_tsx BUFFERING 12000 12000 playingA))
  = Some 15000%Z
  /\ isBuffering bufferingA = true
  /\ enabled (SyncIntervalFired 25000 25000) bufferingA = true
  /\ publishes (snd (step VideoPlayer_tsx (SyncIntervalFired 25000 25000)
                       bufferingA))
     = [Publish "room" (mkVideoState (Some "A") false 0 25000)]
  /\ ~ specTimerConfined VideoPlayer_tsx.
Proof.
  repeat split; try reflexivity.
  intros H.
  assert (BUFFERING <> PLAYING) as Hne by discriminate.
  specialize (H playingA BUFFERING 12000%Z 12000%Z Hne).
  vm_compute in H. discriminate H.
Qed.

Lemma sync_timer_follows_player_reports_witness :
  syncIntervalRef
    (fst (onPlayerStateChange VideoPlayer_tsx PAUSED 30000 30000 playingA))
  = None
  /\ syncIntervalRef
       (fst (step VideoPlayer_tsx (VideoStateChanged publishedA 5000)
               (initial "room")))
     = None
  /\ enabled (SyncIntervalFired 1 1) (initial "room") = false.
Proof.
  split; [|split].
  - apply (sync_timer_follows_player_reports VideoPlayer_tsx playingA).
  - apply (sync_timer_follows_player_reports VideoPlayer_tsx (initial "room")).
    + intros now now'. discriminate.
    + reflexivity.
  - apply (sync_timer_follows_player_reports VideoPlayer_tsx (initial "room")).
    reflexivity.
Defined.

Lemma no_shared_state_no_publish_witness :
  videoState statelessRoom = None
  /\ updateRoomVideoState (mkPartial (Some "A") (Some true) (Some 0)) 5 6
       statelessRoom
     = (statelessRoom, [])
  /\ playVideoFromPlaylist "A" 5 6 statelessRoom = (statelessRoom, [])
  /\ togglePlayPause (initial "room") = (initial "room", []).
Proof.
  destruct (no_shared_state_no_publish VideoPlayer_tsx statelessRoom eq_refl)
    as [Hupd [Hsel _]].
  destruct (no_shared_state_no_publish VideoPlayer_tsx (initial "room") eq_refl)
    as [_ [_ [_ [_ Hreach]]]].
  split; [reflexivity|]. split; [apply Hupd|]. split.
  - apply (Hsel "A" 5%Z 6%Z).
  - apply (Hreach "room"). apply reach_initial.
Defined.

(** C10: a room with a playlist and no shared state.  A skip changes
    nothing and writes nothing but shows the "Playlist restarted" toast,
    and the selection of a video outside the playlist shows the rejection
    toast. *)
Lemma skip_without_state_still_toasts :
  videoState statelessRoom = None
  /\ playNextVideo 5 5 statelessRoom = (statelessRoom, [restartToast])
  /\ playVideoFromPlaylist "X" 5 5 statelessRoom
     = (statelessRoom, [rejectLog; rejectToast])
  /\ ~ specSilentSkip.
Proof.
  repeat split; try reflexivity.
  intros H. specialize (H statelessRoom 5%Z 5%Z eq_refl). discriminate H.
Qed.

(** * Further properties of the component *)

(** ** Applying a delivery twice *)

Lemma videoIdDiffers_refl (v : option string) : videoIdDiffers v v = false.
Proof.
  destruct v as [x|]; [|reflexivity]. cbn. now rewrite String.eqb_refl.
Qed.

Lemma setVideoState_same (s : Component) (v : option VideoState) :
  videoState s = v -> setVideoState v s = s.
Proof. intros <-. now destruct s. Qed.

Lemma setLocalIsPlaying_same (s : Component) (b : bool) :
  localIsPlaying s = b -> setLocalIsPlaying b s = s.
Proof. intros <-. now destruct s. Qed.

(** After a delivery has been applied, a player that is mounted and shows
    the delivered video is recorded as playing exactly when the delivery
    says so. *)
Lemma handleVideoStateChange_applied_local (cfg : Config)
    (newState : VideoState) (now : Z) (s : Component) :
  echoSuppressed now s = false -> notInRoomPlaylist newState s = false ->
  playerRef s <> None ->
  localIsPlaying (fst (handleVideoStateChange cfg newState now s))
  = isPlaying newState.
Proof.
  intros E G P. unfold handleVideoStateChange. rewrite E, G.
  destruct (playerRef s) as [t|]; [|congruence].
  destruct (videoChanged newState (videoState s)); [reflexivity|].
  destruct (negb (Bool.eqb (isPlaying newState) (localIsPlaying s))) eqn:D;
    cbv zeta;
    destruct (driftExceeds t (currentTime newState) (seekThreshold cfg));
    cbn [fst localIsPlaying setLocalIsPlaying setVideoState];
    try reflexivity;
    apply negb_false_iff, Bool.eqb_prop in D; now symmetry.
Qed.

(** X1.  Re-applying a delivery that has just been applied, at any later
    time, leaves the component exactly as it is; the only command it can
    still send the player is the seek to the delivered time. *)
Theorem remote_update_idempotent :
  forall (cfg : Config) (newState : VideoState) (now now2 : Z)
         (s : Component),
    echoSuppressed now s = false ->
    notInRoomPlaylist newState s = false ->
    fst (handleVideoStateChange cfg newState now2
           (fst (handleVideoStateChange cfg newState now s)))
    = fst (handleVideoStateChange cfg newState now s)
    /\ forall e,
         In e (snd (handleVideoStateChange cfg newState now2
                      (fst (handleVideoStateChange cfg newState now s)))) ->
         e = SeekTo (currentTime newState) true.
Proof.
  intros cfg newState now now2 s E G.
  destruct (handleVideoStateChange_applied cfg newState now s E G)
    as [s1 [cmds [Heq [Hvs [Hpl [Hlast [_ [Hplayer _]]]]]]]].
  pose proof (handleVideoStateChange_applied_local cfg newState now s E G) as Hloc.
  rewrite Heq in *. cbn [fst] in *.
  unfold handleVideoStateChange.
  destruct (echoSuppressed now2 s1); [split; [reflexivity|intros e []]|].
  assert (notInRoomPlaylist newState s1 = false) as G1.
  { unfold notInRoomPlaylist. rewrite Hpl. exact G. }
  rewrite G1, Hvs, Hplayer.
  rewrite (setVideoState_same s1 _ Hvs).
  destruct (playerRef s) as [t|] eqn:P; [|split; [reflexivity|intros e []]].
  unfold videoChanged. rewrite videoIdDiffers_refl.
  rewrite Hloc by discriminate. rewrite Bool.eqb_reflx. cbn [negb].
  destruct (driftExceeds t (currentTime newState) (seekThreshold cfg));
    cbn [fst snd app]; split; try reflexivity.
  - intros e [He|[]]. now symmetry.
  - intros e [].
Qed.

Lemma remote_update_idempotent_witness :
  fst (handleVideoStateChange VideoPlayer_tsx (remoteAt 13.1) 99000
         (fst (handleVideoStateChange VideoPlayer_tsx (remoteAt 13.1)
                 20000 driftExample)))
  = fst (handleVideoStateChange VideoPlayer_tsx (remoteAt 13.1) 20000
           driftExample).
Proof.
  apply (remote_update_idempotent VideoPlayer_tsx (remoteAt 13.1)
           20000 99000 driftExample); reflexivity.
Defined.

(** ** Remote and local causes of a player report *)

(** What a player report does when it agrees with the state held. *)
Lemma agreeing_report (cfg : Config) (s : Component) (vs : VideoState)
    (t t' : Z) :
  videoState s = Some vs ->
  onPlayerStateChange cfg (if isPlaying vs then PLAYING else PAUSED) t t' s
  = (if isPlaying vs
     then setSyncIntervalClosure (Some (renderOf s))
            (setSyncIntervalRef (Some (syncIntervalMs cfg))
               (setIsBuffering false (setLocalIsPlaying true s)))
     else setSyncIntervalClosure None
            (setSyncIntervalRef None
               (setIsBuffering false (setLocalIsPlaying false s))),
     []).
Proof.
  intros Hvs.
  destruct (isPlaying vs) eqn:Pl; cbn [onPlayerStateChange];
    rewrite Hvs, Pl; reflexivity.
Qed.

(** X2.  Once a delivery has been processed, the player report that
    agrees with it ([PLAYING] for a playing state, [PAUSED] for a paused
    one) does nothing to the outside world: the remote change is not
    written back, no toast is shown and the player is sent nothing.  In
    the component it records the reported flag in [localIsPlaying], clears
    [isBuffering], and starts (on [PLAYING]) or stops (on [PAUSED]) the
    interval timer; everything else, the state held and the recorded
    publish time among it, stays as the delivery left it. *)
Theorem remote_induced_report_not_republished :
  forall (cfg : Config) (newState : VideoState) (now t t' : Z)
         (s : Component),
    echoSuppressed now s = false ->
    let s1 := fst (step cfg (VideoStateChanged newState now) s) in
    let report := if isPlaying newState then PLAYING else PAUSED in
    videoState s1 = Some newState
    /\ lastSyncTimeRef s1 = lastSyncTimeRef s
    /\ onPlayerStateChange cfg report t t' s1
       = (if isPlaying newState
          then setSyncIntervalClosure (Some (renderOf s1))
                 (setSyncIntervalRef (Some (syncIntervalMs cfg))
                    (setIsBuffering false (setLocalIsPlaying true s1)))
          else setSyncIntervalClosure None
                 (setSyncIntervalRef None
                    (setIsBuffering false (setLocalIsPlaying false s1))),
          []).
Proof.
  intros cfg newState now t t' s E s1 report.
  assert (videoState s1 = Some newState /\ lastSyncTimeRef s1 = lastSyncTimeRef s)
    as [Hvs Hlast].
  { unfold s1. rewrite step_fst. cbn [dispatch].
    rewrite handleVideoStateChangeIn_mount, E. unfold delivered.
    now destruct (playerRef s). }
  split; [exact Hvs|]. split; [exact Hlast|].
  now apply agreeing_report.
Qed.

Lemma remote_induced_report_not_republished_witness :
  snd (onPlayerStateChange VideoPlayer_tsx PLAYING 21000 21000
         (fst (step VideoPlayer_tsx (VideoStateChanged (remoteAt 13.1) 20000)
                 driftExample)))
  = [].
Proof.
  destruct (remote_induced_report_not_republished VideoPlayer_tsx
              (remoteAt 13.1) 20000 21000 21000 driftExample eq_refl)
    as [_ [_ H]].
  cbv zeta in H. cbn [remoteAt isPlaying] in H. now rewrite H.
Defined.

(** X3.  A player report that disagrees with the shared state (the user
    paused a playing room or started a paused one) is published whatever
    the playlist holds: one write of the current video with the flag
    flipped and the player's time, which also becomes the state held. *)
Theorem local_play_pause_is_published :
  forall (cfg : Config) (s : Component) (vs : VideoState) (t t' : Z),
    videoState s = Some vs -> roomId s <> "" ->
    let report := if isPlaying vs then PAUSED else PLAYING in
    let st := mkVideoState (videoId vs) (negb (isPlaying vs))
                (currentTimeOrZero (playerRef s)) t' in
    snd (onPlayerStateChange cfg report t t' s) = [Publish (roomId s) st]
    /\ videoState (fst (onPlayerStateChange cfg report t t' s)) = Some st
    /\ lastSyncTimeRef (fst (onPlayerStateChange cfg report t t' s)) = t
    /\ localIsPlaying (fst (onPlayerStateChange cfg report t t' s))
       = negb (isPlaying vs).
Proof.
  intros cfg s vs t t' Hvs Hroom.
  destruct (isPlaying vs) eqn:Pl; cbn [onPlayerStateChange negb];
    rewrite Hvs, Pl; cbn [negb];
    match goal with
    | |- context [updateRoomVideoState ?u ?a ?b ?c] =>
        rewrite (updateRoomVideoState_accepts u a b c vs)
          by (try reflexivity; assumption)
    end;
    cbn; unfold spread; cbn; auto.
Qed.

Lemma local_play_pause_is_published_witness :
  snd (onPlayerStateChange VideoPlayer_tsx PAUSED 30000 30001 playingA)
  = [Publish "room" (mkVideoState (Some "A") false 0 30001)].
Proof.
  apply (local_play_pause_is_published VideoPlayer_tsx playingA publishedA
           30000 30001); [reflexivity|discriminate].
Defined.

(** ** What a local publish does and does not touch *)

(** X4.  [updateRoomVideoState] touches nothing but the shared state held
    and the recorded publish time: every other cell of the component is
    left as it is.  And it is all or nothing: either the component is
    unchanged and nothing is written, or exactly one write is issued, its
    payload is the state now held (the old state overlaid with the update,
    stamped with the second clock reading) and the first clock reading is
    recorded. *)
Theorem updateRoomVideoState_all_or_nothing :
  forall (u : PartialVideoState) (t t' : Z) (s : Component),
    (roomId (fst (updateRoomVideoState u t t' s)) = roomId s
     /\ playlist (fst (updateRoomVideoState u t t' s)) = playlist s
     /\ playerRef (fst (updateRoomVideoState u t t' s)) = playerRef s
     /\ syncIntervalRef (fst (updateRoomVideoState u t t' s))
        = syncIntervalRef s
     /\ syncIntervalClosure (fst (updateRoomVideoState u t t' s))
        = syncIntervalClosure s
     /\ localIsPlaying (fst (updateRoomVideoState u t t' s))
        = localIsPlaying s
     /\ isMuted (fst (updateRoomVideoState u t t' s)) = isMuted s
     /\ isLoading (fst (updateRoomVideoState u t t' s)) = isLoading s
     /\ isBuffering (fst (updateRoomVideoState u t t' s)) = isBuffering s
     /\ currentVideoPosition (fst (updateRoomVideoState u t t' s))
        = currentVideoPosition s)
    /\ ((fst (updateRoomVideoState u t t' s) = s
         /\ publishes (snd (updateRoomVideoState u t t' s)) = [])
        \/ exists vs,
             videoState s = Some vs
             /\ snd (updateRoomVideoState u t t' s)
                = [Publish (roomId s) (spread vs u t')]
             /\ videoState (fst (updateRoomVideoState u t t' s))
                = Some (spread vs u t')
             /\ lastSyncTimeRef (fst (updateRoomVideoState u t t' s)) = t).
Proof.
  intros u t t' s.
  destruct (updateRoomVideoState_cases u t t' s) as [C|[C|[vs [Hvs [_ C]]]]];
    rewrite C; cbn [fst snd]; (split; [repeat split|]).
  - left. split; reflexivity.
  - left. split; reflexivity.
  - right. exists vs. repeat split. exact Hvs.
Qed.

(** X5.  The state a component has just published, delivered back to it at
    any time, never changes the shared state it holds: inside the window the
    echo is dropped, outside it the same state is set again or ignored. *)
Theorem own_echo_keeps_shared_state :
  forall (cfg : Config) (u : PartialVideoState) (t t' now : Z)
         (s : Component) (room : string) (st : VideoState),
    snd (updateRoomVideoState u t t' s) = [Publish room st] ->
    videoState
      (fst (handleVideoStateChange cfg st now
              (fst (updateRoomVideoState u t t' s))))
    = Some st.
Proof.
  intros cfg u t t' now s room st Hpub.
  assert (videoState (fst (updateRoomVideoState u t t' s)) = Some st) as Hst.
  { destruct (updateRoomVideoState_cases u t t' s) as [C|[C|[vs [_ [_ C]]]]];
      rewrite C in *; cbn in *; try discriminate. now inversion Hpub. }
  set (s1 := fst (updateRoomVideoState u t t' s)) in *.
  destruct (echoSuppressed now s1) eqn:E.
  - unfold handleVideoStateChange. now rewrite E.
  - destruct (notInRoomPlaylist st s1) eqn:G.
    + unfold handleVideoStateChange. now rewrite E, G.
    + destruct (handleVideoStateChange_applied cfg st now s1 E G)
        as [s2 [cmds [Heq [Hvs _]]]].
      now rewrite Heq.
Qed.

Lemma own_echo_keeps_shared_state_witness :
  videoState
    (fst (handleVideoStateChange VideoPlayer_tsx
            (mkVideoState (Some "A") false 42 30001) 50000
            (fst (updateRoomVideoState (mkPartial None (Some false) (Some 42))
                    30000 30001 playingA))))
  = Some (mkVideoState (Some "A") false 42 30001).
Proof.
  apply (own_echo_keeps_shared_state VideoPlayer_tsx
           (mkPartial None (Some false) (Some 42)) 30000 30001 50000 playingA
           "room"). reflexivity.
Defined.

Lemma onPlayerStateChange_PLAYING_closure (cfg : Config) (now now' : Z)
    (s : Component) :
  syncIntervalClosure (fst (onPlayerStateChange cfg PLAYING now now' s))
  = Some (renderOf s).
Proof.
  cbn [onPlayerStateChange].
  destruct (negb match videoState s with
                 | Some vs => isPlaying vs | None => false end);
    [destruct (updateRoomVideoState _ now now' _)|]; reflexivity.
Qed.

(** X6.  The interval callback belongs to the render in which the
    [PLAYING] report was handled.  Whenever it fires later, with a player
    mounted, it writes the state the component held at that report (its
    video and its playing flag, whatever has been published or received
    since) with the player's current time, and makes that the state held.
    After the user has started a paused room, every tick writes the room
    back to paused. *)
Theorem periodic_publish_carries_captured_state :
  forall (cfg : Config) (s : Component) (vs : VideoState) (now now' : Z),
    videoState s = Some vs -> roomId s <> "" ->
    syncIntervalClosure (fst (onPlayerStateChange cfg PLAYING now now' s))
    = Some (renderOf s)
    /\ forall (s2 : Component) (playerTime : float) (t t' : Z),
         syncIntervalClosure s2 = Some (renderOf s) ->
         roomId s2 = roomId s ->
         playerRef s2 = Some playerTime ->
         syncIntervalFired t t' s2
         = (setVideoState
              (Some (mkVideoState (videoId vs) (isPlaying vs) playerTime t'))
              (setLastSyncTimeRef t s2),
            [Publish (roomId s)
               (mkVideoState (videoId vs) (isPlaying vs) playerTime t')]).
Proof.
  intros cfg s vs now now' Hvs Hroom.
  split; [apply onPlayerStateChange_PLAYING_closure|].
  intros s2 playerTime t t' Hc Hr Hp.
  rewrite (syncIntervalFired_publishes s2 (renderOf s) vs playerTime t t');
    try assumption.
  - now rewrite Hr.
  - now rewrite Hr.
Qed.

Lemma periodic_publish_carries_captured_state_witness :
  videoState readyA = Some pausedA
  /\ playingA = fst (step VideoPlayer_tsx (PlayerStateChanged PLAYING 10000 10000)
                       readyA)
  /\ videoState playingA = Some publishedA
  /\ syncIntervalFired 25000 25001 playingA
     = (setVideoState (Some (mkVideoState (Some "A") false 0 25001))
          (setLastSyncTimeRef 25000 playingA),
        [Publish "room" (mkVideoState (Some "A") false 0 25001)]).
Proof.
  assert (roomId readyA <> "") as Hroom by discriminate.
  destruct (periodic_publish_carries_captured_state VideoPlayer_tsx readyA
              pausedA 10000 10000 eq_refl Hroom) as [_ H].
  split; [reflexivity|]. split; [vm_compute; reflexivity|].
  split; [reflexivity|].
  apply (H playingA 0 25000%Z 25001%Z); vm_compute; reflexivity.
Defined.

(** ** Invariants of the reachable components *)

Lemma positionOf_Some (pl : list PlaylistItem) (cur : option string) (i : nat) :
  positionOf pl cur = Some i ->
  (i < List.length pl)%nat
  /\ exists item,
       nth_error pl i = Some item
       /\ cur = Some (video_id item)
       /\ video_id item <> ""
       /\ forall j other, (j < i)%nat -> nth_error pl j = Some other ->
                          video_id other <> video_id item.
Proof.
  unfold positionOf. intros H.
  destruct (truthy cur) eqn:T; [|discriminate].
  destruct (List.length pl =? 0)%nat; [discriminate|]. cbn in H.
  destruct (findIndex_Some _ _ _ H) as [Hlt [[item [Hn Hs]] Hmin]].
  split; [exact Hlt|]. exists item.
  destruct cur as [x|]; [|discriminate].
  cbn in Hs, T. apply String.eqb_eq in Hs. subst x.
  split; [exact Hn|]. split; [reflexivity|]. split.
  - intros E. rewrite E in T. discriminate.
  - intros j other Hj Hnth Heq. specialize (Hmin j other Hj Hnth).
    cbn in Hmin. apply String.eqb_neq in Hmin. contradiction.
Qed.

Lemma positionOf_None (pl : list PlaylistItem) (cur : option string) :
  positionOf pl cur = None <->
  truthy cur = false \/ isInPlaylist pl cur = false.
Proof.
  unfold positionOf, isInPlaylist. split.
  - intros H. destruct (truthy cur); [|now left]. right.
    destruct pl as [|p l]; [reflexivity|]. cbn [negb orb List.length Nat.eqb] in H.
    now apply findIndex_None.
  - intros [H|H].
    + now rewrite H.
    + destruct (negb (truthy cur) || (List.length pl =? 0)%nat);
        [reflexivity|]. now apply findIndex_None.
Qed.

(** X7.  In every reachable component the position behind the
    "k of n" indicator is right: when it is set it is a valid index, the
    entry there carries the video being shown, and no earlier entry does;
    it is unset exactly when no video is selected or the selected video is
    not in the playlist. *)
Theorem position_indicator_is_right :
  forall (cfg : Config) (room : string) (s : Component),
    reachable cfg room s ->
    (forall i, currentVideoPosition s = Some i ->
       (i < List.length (playlist s))%nat
       /\ exists item,
            nth_error (playlist s) i = Some item
            /\ currentVideoId s = Some (video_id item)
            /\ forall j other, (j < i)%nat ->
                 nth_error (playlist s) j = Some other ->
                 video_id other <> video_id item)
    /\ (currentVideoPosition s = None <->
        truthy (currentVideoId s) = false
        \/ isInPlaylist (playlist s) (currentVideoId s) = false).
Proof.
  intros cfg room s Hreach.
  destruct (reachable_wellFormed _ _ _ Hreach) as [_ [Hpos _]].
  rewrite Hpos. split.
  - intros i Hi. destruct (positionOf_Some _ _ _ Hi)
      as [Hlt [item [Hn [Hc [_ Hmin]]]]].
    split; [exact Hlt|]. exists item. auto.
  - apply positionOf_None.
Qed.

Lemma position_indicator_is_right_witness :
  currentVideoPosition playingA = Some 0%nat
  /\ (0 < List.length (playlist playingA))%nat
  /\ (currentVideoPosition afterRemoval = None <->
      truthy (currentVideoId afterRemoval) = false
      \/ isInPlaylist (playlist afterRemoval) (currentVideoId afterRemoval)
         = false).
Proof.
  assert (reachable VideoPlayer_tsx "room" playingA) as R1
    by (unfold playingA; apply reachable_run, reach_initial).
  assert (reachable VideoPlayer_tsx "room" afterRemoval) as R2
    by (unfold afterRemoval; apply reachable_run, reach_initial).
  split; [reflexivity|]. split.
  - apply (proj1 (position_indicator_is_right _ _ _ R1) 0%nat). reflexivity.
  - apply (proj2 (position_indicator_is_right _ _ _ R2)).
Defined.

Lemma step_keeps_state (cfg : Config) (ev : Event) (s : Component) :
  videoState s <> None -> videoState (fst (step cfg ev s)) <> None.
Proof.
  intros H Hn. rewrite step_fst in Hn. cbn in Hn.
  apply dispatch_keeps_state in Hn. contradiction.
Qed.

(** X8.  No sequence of events takes the shared state away again or moves
    the component to another room: once [videoState] is set it stays set,
    and [roomId] never changes. *)
Theorem shared_state_is_never_lost :
  forall (cfg : Config) (evs : list Event) (s : Component),
    roomId (fst (run cfg evs s)) = roomId s
    /\ (videoState s <> None -> videoState (fst (run cfg evs s)) <> None).
Proof.
  intros cfg evs. induction evs as [|ev rest IH]; intros s.
  - split; [reflexivity|auto].
  - rewrite run_fst. destruct (enabled ev s).
    + destruct (IH (fst (step cfg ev s))) as [Hr Hv]. split.
      * rewrite Hr, step_fst. cbn. apply dispatch_roomId.
      * intros H. apply Hv. now apply step_keeps_state.
    + apply IH.
Qed.

Lemma shared_state_is_never_lost_witness :
  videoState playingA <> None
  /\ videoState
       (fst (run VideoPlayer_tsx
               [PlayerStateChanged ENDED 90000 90001;
                RoomPlaylistFetched (FetchData None);
                VideoStateChanged strayState 95000]
               playingA)) <> None.
Proof.
  assert (videoState playingA <> None) as H by discriminate.
  split; [exact H|].
  apply (shared_state_is_never_lost VideoPlayer_tsx _ playingA). exact H.
Defined.

(** ** The initial fetch *)

(** X9.  The initial fetch always ends the loading phase and never writes
    to the shared row.  A stored state is adopted as it is, with its
    playing flag, whatever the playlist of the component holds at that
    moment, also a video that is not in it; an empty fetch changes nothing
    else, and a failed one is written to the console. *)
Theorem fetchInitialState_outcomes :
  forall (cfg : Config) (res : FetchResult (option VideoState)) (t t' : Z)
         (s : Component),
    isLoading (fst (dispatch cfg (InitialStateFetched res t t') s)) = false
    /\ publishes (snd (dispatch cfg (InitialStateFetched res t t') s)) = []
    /\ (forall vs0,
          res = FetchData (Some vs0) ->
          dispatch cfg (InitialStateFetched res t t') s
          = (setIsLoading false
               (setLocalIsPlaying (isPlaying vs0)
                  (setVideoState (Some vs0) s)), []))
    /\ (res = FetchData None ->
        dispatch cfg (InitialStateFetched res t t') s
        = (setIsLoading false s, []))
    /\ (res = FetchFailed ->
        dispatch cfg (InitialStateFetched res t t') s
        = (setIsLoading false s,
           [ConsoleError "Error fetching initial state:"])).
Proof.
  intros cfg res t t' s. cbn [dispatch]. rewrite fetchInitialState_mount.
  destruct res as [|[vs0|]]; repeat split; try reflexivity;
    try discriminate.
  intros vs1 H. now inversion H.
Qed.

Lemma fetchInitialState_outcomes_witness :
  notInRoomPlaylist strayState playingA = true
  /\ videoState
       (fst (dispatch VideoPlayer_tsx
               (InitialStateFetched (FetchData (Some strayState)) 50000 50001)
               playingA))
     = Some strayState.
Proof.
  split; [reflexivity|].
  destruct (fetchInitialState_outcomes VideoPlayer_tsx
              (FetchData (Some strayState)) 50000 50001 playingA)
    as [_ [_ [H _]]].
  now rewrite (H strayState eq_refl).
Defined.

(** ** The player becoming ready *)

(** X10.  When the player becomes ready on a component whose selected
    video satisfies the membership invariant, the component records the
    player, ends loading, sets the volume to 70 and schedules the start-up
    seek with the state it holds; when that fires it seeks to the stored
    time, one second further and followed by a play command exactly when
    the stored state is playing.  With a selected video outside a
    non-empty playlist no seek is scheduled. *)
Theorem ready_player_catches_up :
  forall (playerTime : float) (s : Component) (vs : VideoState),
    videoState s = Some vs -> truthy (videoId vs) = true ->
    playerRef (fst (onPlayerReady playerTime s)) = Some playerTime
    /\ isLoading (fst (onPlayerReady playerTime s)) = false
    /\ In (SetVolume 70) (snd (onPlayerReady playerTime s))
    /\ (membershipOk s = true ->
        In (SetTimeout 500 vs) (snd (onPlayerReady playerTime s))
        /\ readyTimeoutFired vs (fst (onPlayerReady playerTime s))
           = (fst (onPlayerReady playerTime s),
              if isPlaying vs
              then [SeekTo (currentTime vs + 1) true; PlayVideo]
              else [SeekTo (currentTime vs) true]))
    /\ (membershipOk s = false ->
        forall ms captured,
          ~ In (SetTimeout ms captured) (snd (onPlayerReady playerTime s))).
Proof.
  intros playerTime s vs Hvs T. unfold membershipOk, onPlayerReady.
  rewrite Hvs, T. cbn [negb orb].
  rewrite (orb_comm (List.length (playlist s) =? 0)%nat).
  destruct (isInPlaylist (playlist s) (videoId vs)
            || (List.length (playlist s) =? 0)%nat);
    cbn [fst snd]; repeat split; try (intros; discriminate);
    try (now left).
  - apply in_or_app. right. now left.
  - unfold readyTimeoutFired. cbn. now destruct (isPlaying vs).
  - intros _ ms captured Hin. destruct (isMuted s); cbn in Hin;
      repeat (destruct Hin as [Hin|Hin]; [discriminate Hin|]); exact Hin.
Qed.

Lemma ready_player_catches_up_witness :
  readyTimeoutFired publishedA (fst (onPlayerReady 0 playingA))
  = (fst (onPlayerReady 0 playingA), [SeekTo (0 + 1) true; PlayVideo]).
Proof.
  destruct (ready_player_catches_up 0 playingA publishedA eq_refl eq_refl)
    as [_ [_ [_ [H _]]]].
  apply (H eq_refl).
Defined.

(** ** Mute *)

(** X11.  Without a player the mute toggle does nothing.  With one, two
    toggles in a row bring the component back to where it was, having sent
    the player the two opposite commands; and a player that becomes ready
    is sent the mute command exactly when the component is muted. *)
Theorem toggleMute_round_trip :
  forall (s : Component),
    (playerRef s = None -> toggleMute s = (s, []))
    /\ (playerRef s <> None ->
        fst (toggleMute (fst (toggleMute s))) = s
        /\ snd (toggleMute s) = [if isMuted s then UnMuteCmd else MuteCmd]
        /\ snd (toggleMute (fst (toggleMute s)))
           = [if isMuted s then MuteCmd else UnMuteCmd])
    /\ (forall playerTime,
          In MuteCmd (snd (onPlayerReady playerTime s)) <-> isMuted s = true).
Proof.
  intros s. split; [|split].
  - intros H. unfold toggleMute. now rewrite H.
  - intros H. unfold toggleMute.
    destruct (playerRef s) as [t|] eqn:P; [|congruence].
    cbn. rewrite P. cbn. rewrite negb_involutive.
    destruct s; cbn in *. subst. destruct isMuted0; repeat split.
  - intros playerTime. unfold onPlayerReady.
    destruct (isMuted s); destruct (videoState s) as [vs|];
      try destruct (isInPlaylist (playlist s) (videoId vs)
                    || (List.length (playlist s) =? 0)%nat);
      cbn; split; intros H; try discriminate; auto;
      repeat (destruct H as [H|H]; [discriminate H|]); destruct H.
Qed.

Lemma toggleMute_round_trip_witness :
  fst (toggleMute (fst (toggleMute playingA))) = playingA.
Proof.
  apply (toggleMute_round_trip playingA). discriminate.
Defined.

(** ** Skipping through the playlist *)

Lemma findIndex_unique (pl : list PlaylistItem) (k : nat) (item : PlaylistItem) :
  NoDup (map video_id pl) ->
  nth_error pl k = Some item ->
  findIndex (sameVideo (Some (video_id item))) pl = Some k.
Proof.
  revert k. induction pl as [|a l IH]; intros k Hnd Hk.
  - destruct k; discriminate.
  - cbn in Hnd. inversion Hnd as [|x xs Hnotin Hnd']; subst.
    destruct k as [|k]; cbn in Hk |- *.
    + inversion Hk; subst. now rewrite String.eqb_refl.
    + destruct (video_id a =? video_id item) eqn:E.
      * apply String.eqb_eq in E. exfalso. apply Hnotin. rewrite E.
        apply in_map. eapply nth_error_In; eauto.
      * now rewrite (IH k Hnd' Hk).
Qed.

Lemma skip_step (cfg : Config) (room : string) (s : Component) (i : nat)
    (t t' : Z) :
  reachable cfg room s ->
  playerRendered s = true ->
  currentVideoPosition s = Some i ->
  distinctVideos (playlist s) ->
  let s1 := fst (step cfg (ClickSkip t t') s) in
  playlist s1 = playlist s
  /\ playerRendered s1 = true
  /\ currentVideoPosition s1 = Some ((i + 1) mod List.length (playlist s))
  /\ exists item,
       nth_error (playlist s) ((i + 1) mod List.length (playlist s)) = Some item
       /\ videoState s1 = Some (mkVideoState (Some (video_id item)) true 0 t').
Proof.
  intros Hreach Hrend Hpos [Hnd Hne].
  destruct (reachable_wellFormed _ _ _ Hreach) as [Hroom [Hsync [_ Hsome]]].
  unfold playerRendered in Hrend. apply andb_true_iff in Hrend.
  destruct Hrend as [Hload Hrend].
  destruct (videoState s) as [vs|] eqn:Hvs; [|discriminate].
  assert (roomId s <> "") as Hr by (rewrite Hroom; apply Hsome; discriminate).
  rewrite Hsync in Hpos.
  destruct (positionOf_Some _ _ _ Hpos) as [Hlt _].
  assert (List.length (playlist s) <> 0)%nat as Hlen by lia.
  set (k := ((i + 1) mod List.length (playlist s))%nat).
  assert (k < List.length (playlist s))%nat as Hk
      by (apply Nat.mod_upper_bound; exact Hlen).
  destruct (nth_error (playlist s) k) as [item|] eqn:Hitem;
    [|apply nth_error_None in Hitem; lia].
  assert (nextVideo (playlist s) (currentVideoPosition s) = Some item) as Hnext.
  { rewrite Hsync, Hpos. unfold nextVideo.
    apply Nat.eqb_neq in Hlen. now rewrite Hlen. }
  destruct (playNextVideo_advances t t' s vs item Hvs Hr Hnext)
    as [notice [_ Hplay]].
  cbv zeta. rewrite step_fst. cbn [dispatch]. rewrite Hplay. cbn [fst].
  unfold updateCurrentVideoPosition. cbn.
  assert (video_id item <> "") as Hid
      by (apply Hne; eapply nth_error_In; eauto).
  apply String.eqb_neq in Hid.
  split; [reflexivity|]. split; [|split].
  - unfold playerRendered. cbn. now rewrite Hload, Hid.
  - unfold positionOf. cbn [truthy]. rewrite Hid. cbn [negb orb].
    apply Nat.eqb_neq in Hlen. rewrite Hlen.
    now apply findIndex_unique.
  - exists item. split; reflexivity.
Qed.

(** X12.  With the controls rendered, the indicator at index [i] and a
    playlist that names each video once, any number of skips moves the
    indicator that many entries forward around the playlist, which stays as
    it is; so as many skips as the playlist has entries come back to the
    entry they started from. *)
Theorem skips_go_round_the_playlist :
  forall (cfg : Config) (room : string) (times : list (Z * Z))
         (s : Component) (i : nat),
    reachable cfg room s ->
    playerRendered s = true ->
    currentVideoPosition s = Some i ->
    distinctVideos (playlist s) ->
    playlist (fst (run cfg (skips times) s)) = playlist s
    /\ currentVideoPosition (fst (run cfg (skips times) s))
       = Some ((i + List.length times) mod List.length (playlist s))
    /\ (List.length times = List.length (playlist s) ->
        currentVideoPosition (fst (run cfg (skips times) s)) = Some i).
Proof.
  intros cfg room times.
  assert (forall s i,
             reachable cfg room s -> playerRendered s = true ->
             currentVideoPosition s = Some i ->
             distinctVideos (playlist s) ->
             (i < List.length (playlist s))%nat
             /\ playlist (fst (run cfg (skips times) s)) = playlist s
             /\ currentVideoPosition (fst (run cfg (skips times) s))
                = Some ((i + List.length times) mod List.length (playlist s)))
    as Hmain.
  { induction times as [|[t t'] rest IH]; intros s i Hreach Hrend Hpos Hd.
    - assert (i < List.length (playlist s))%nat as Hlt.
      { destruct (reachable_wellFormed _ _ _ Hreach) as [_ [Hsync _]].
        rewrite Hsync in Hpos. now destruct (positionOf_Some _ _ _ Hpos). }
      split; [exact Hlt|]. split; [reflexivity|].
      cbn. rewrite Nat.add_0_r, Nat.mod_small by exact Hlt. exact Hpos.
    - cbn [skips map fst snd]. fold (skips rest). rewrite run_fst.
      cbn [enabled]. rewrite Hrend.
      destruct (skip_step cfg room s i t t' Hreach Hrend Hpos Hd)
        as [Hpl [Hrend1 [Hpos1 _]]].
      assert (reachable cfg room (fst (step cfg (ClickSkip t t') s))) as Hreach1.
      { apply reach_step; [exact Hreach|]. cbn. exact Hrend. }
      assert (i < List.length (playlist s))%nat as Hlt.
      { destruct (reachable_wellFormed _ _ _ Hreach) as [_ [Hsync _]].
        rewrite Hsync in Hpos. now destruct (positionOf_Some _ _ _ Hpos). }
      assert (distinctVideos (playlist (fst (step cfg (ClickSkip t t') s))))
        as Hd1 by (rewrite Hpl; exact Hd).
      destruct (IH _ _ Hreach1 Hrend1 Hpos1 Hd1) as [_ [Hpl2 Hpos2]].
      split; [exact Hlt|]. split; [now rewrite Hpl2|].
      rewrite Hpos2, Hpl. f_equal. cbn [List.length].
      assert (List.length (playlist s) <> 0)%nat as Hn by lia.
      rewrite Nat.Div0.add_mod_idemp_l. f_equal. lia. }
  intros s i Hreach Hrend Hpos Hd.
  destruct (Hmain s i Hreach Hrend Hpos Hd) as [Hlt [Hpl Hp]].
  split; [exact Hpl|]. split; [exact Hp|].
  intros Hn. rewrite Hp, Hn.
  replace (i + List.length (playlist s))%nat
    with (i + 1 * List.length (playlist s))%nat by lia.
  rewrite Nat.Div0.mod_add. now rewrite Nat.mod_small.
Qed.

Lemma skips_go_round_the_playlist_witness :
  distinctVideos (playlist playingA)
  /\ currentVideoPosition
       (fst (run VideoPlayer_tsx (skips [(1, 2); (3, 4)]%Z) playingA))
     = Some 0%nat.
Proof.
  assert (distinctVideos (playlist playingA)) as Hd.
  { split.
    - cbn. repeat constructor; cbn; intuition discriminate.
    - intros item Hin. vm_compute in Hin.
      destruct Hin as [Hi|[Hi|[]]]; subst item; discriminate. }
  split; [exact Hd|].
  apply (skips_go_round_the_playlist VideoPlayer_tsx "room"
           [(1, 2); (3, 4)]%Z playingA 0%nat).
  - unfold playingA. apply reachable_run, reach_initial.
  - reflexivity.
  - reflexivity.
  - exact Hd.
  - reflexivity.
Defined.

(** ** What a delivery does to the player *)

(** X21.  The handler a delivery runs never sends the player a command
    and never logs: inside the echo window it does nothing, and outside it
    the delivered state replaces the state held, whatever video it names
    and whatever the playlist holds, and with a player mounted the
    delivered playing flag is recorded; nothing else changes.  The player
    is not told to play, pause or seek. *)
Theorem delivery_sends_the_player_nothing :
  forall (cfg : Config) (newState : VideoState) (now : Z) (s : Component),
    snd (dispatch cfg (VideoStateChanged newState now) s) = []
    /\ (echoSuppressed now s = true ->
        fst (dispatch cfg (VideoStateChanged newState now) s) = s)
    /\ (echoSuppressed now s = false ->
        fst (dispatch cfg (VideoStateChanged newState now) s)
        = match playerRef s with
          | Some _ =>
              setLocalIsPlaying (isPlaying newState)
                (setVideoState (Some newState) s)
          | None => setVideoState (Some newState) s
          end).
Proof.
  intros cfg newState now s. cbn [dispatch].
  rewrite handleVideoStateChangeIn_mount.
  destruct (echoSuppressed now s); repeat split; try reflexivity;
    intros H; discriminate H.
Qed.

Lemma delivery_sends_the_player_nothing_witness :
  localIsPlaying driftExample = true
  /\ snd (handleVideoStateChange VideoPlayer_tsx
            (mkVideoState (Some "A") false 0 20000) 20000 driftExample)
     = [PauseVideo; SeekTo 0 true]
  /\ snd (dispatch VideoPlayer_tsx
            (VideoStateChanged (mkVideoState (Some "A") false 0 20000) 20000)
            driftExample)
     = []
  /\ fst (dispatch VideoPlayer_tsx
            (VideoStateChanged strayState 20000) driftExample)
     = setLocalIsPlaying true (setVideoState (Some strayState) driftExample).
Proof.
  split; [reflexivity|]. split; [reflexivity|]. split.
  - apply (delivery_sends_the_player_nothing VideoPlayer_tsx).
  - apply (delivery_sends_the_player_nothing VideoPlayer_tsx strayState
             20000 driftExample). reflexivity.
Defined.

(** X22.  An applied delivery that carries another video than the one
    loaded, or that arrives while no player is mounted, sends the player
    nothing: no play, pause or seek; the new video is picked up by the
    player through the state alone. *)
Theorem video_switch_sends_no_command :
  forall (cfg : Config) (s : Component) (newState : VideoState) (now : Z),
    echoSuppressed now s = false ->
    notInRoomPlaylist newState s = false ->
    videoChanged newState (videoState s) = true \/ playerRef s = None ->
    snd (handleVideoStateChange cfg newState now s) = []
    /\ videoState (fst (handleVideoStateChange cfg newState now s))
       = Some newState
    /\ (playerRef s <> None ->
        localIsPlaying (fst (handleVideoStateChange cfg newState now s))
        = isPlaying newState).
Proof.
  intros cfg s newState now E G H.
  unfold handleVideoStateChange. rewrite E, G.
  destruct (playerRef s) as [t|] eqn:P.
  - destruct H as [V|H]; [|discriminate H]. rewrite V. cbn. auto.
  - cbn. repeat split. congruence.
Qed.

Lemma video_switch_sends_no_command_witness :
  snd (handleVideoStateChange VideoPlayer_tsx
         (mkVideoState (Some "B") true 30 20000) 20000 driftExample) = [].
Proof.
  apply (video_switch_sends_no_command VideoPlayer_tsx driftExample
           (mkVideoState (Some "B") true 30 20000) 20000%Z);
    try reflexivity.
  left. reflexivity.
Defined.

(** ** Invariants along runs *)

(** X23.  Along any sequence of events whose handlers run in the current
    render (reports of the player, clicks on the controls, the settling of
    writes, the start-up seek), the playlist stays the same and the
    membership invariant, once it holds, holds to the end. *)
Theorem membership_kept_along_runs :
  forall (cfg : Config) (evs : list Event) (s : Component),
    forallb localEvent evs = true ->
    enforcedMembership s ->
    enforcedMembership (fst (run cfg evs s))
    /\ playlist (fst (run cfg evs s)) = playlist s.
Proof.
  intros cfg evs. induction evs as [|ev rest IH]; intros s Hall Hinv.
  - split; [exact Hinv|reflexivity].
  - cbn [forallb] in Hall. apply andb_true_iff in Hall.
    destruct Hall as [Hev Hrest].
    rewrite run_fst. destruct (enabled ev s); [|now apply IH].
    destruct (step_membership cfg ev s Hev Hinv) as [H1 H2].
    destruct (IH _ Hrest H1) as [Hi Hp]. split; [exact Hi|congruence].
Qed.

Lemma membership_kept_along_runs_witness :
  enforcedMembership
    (fst (run VideoPlayer_tsx
            [PlayerStateChanged PAUSED 80000 80001;
             PlayerStateChanged ENDED 90000 90001;
             ClickSkip 95000 95001]
            playingA)).
Proof.
  apply (membership_kept_along_runs VideoPlayer_tsx).
  - reflexivity.
  - apply membershipOk_iff. reflexivity.
Defined.

(** X24.  Once the interval timer is off, it stays off, and so no
    periodic publish can run, through any sequence of events until the
    player next reports [PLAYING]. *)
Theorem timer_stays_off_until_playing :
  forall (cfg : Config) (evs : list Event) (s : Component),
    Forall notPlayingReport evs ->
    syncIntervalRef s = None ->
    syncIntervalRef (fst (run cfg evs s)) = None
    /\ forall now now',
         enabled (SyncIntervalFired now now') (fst (run cfg evs s)) = false.
Proof.
  intros cfg evs s Hall Hoff.
  assert (syncIntervalRef (fst (run cfg evs s)) = None) as H.
  { revert s Hoff. induction evs as [|ev rest IH]; intros s Hoff.
    - exact Hoff.
    - inversion Hall as [|x xs Hev Hrest]; subst.
      rewrite run_fst. destruct (enabled ev s); [|now apply IH].
      apply IH; [exact Hrest|]. rewrite step_fst. cbn.
      now apply dispatch_timer_stays_off. }
  split; [exact H|]. intros now now'. cbn. now rewrite H.
Qed.

Lemma timer_stays_off_until_playing_witness :
  syncIntervalRef
    (fst (run VideoPlayer_tsx
            [PlayerStateChanged BUFFERING 40000 40000;
             VideoStateChanged publishedA 41000;
             SyncIntervalFired 45000 45000]
            (fst (onPlayerStateChange VideoPlayer_tsx PAUSED 30000 30000
                    playingA))))
  = None.
Proof.
  apply (timer_stays_off_until_playing VideoPlayer_tsx).
  - repeat constructor; intros now now'; discriminate.
  - reflexivity.
Defined.


(** * The room playlist panel: properties *)

Import PlaylistPanel.

Lemma setAt_length {A : Type} (i : nat) (x : A) (l : list A) :
  List.length (setAt i x l) = List.length l.
Proof.
  revert i. induction l as [|a l IH]; intros [|i]; cbn; auto.
Qed.

Lemma setAt_app_here {A : Type} (pre : list A) (x a : A) (post : list A) :
  setAt (List.length pre) a (pre ++ x :: post) = pre ++ a :: post.
Proof. induction pre as [|p pre IH]; cbn; [reflexivity|now rewrite IH]. Qed.

Lemma setAt_app_next {A : Type} (pre : list A) (x y b : A) (post : list A) :
  setAt (S (List.length pre)) b (pre ++ x :: y :: post) = pre ++ x :: b :: post.
Proof.
  induction pre as [|p pre IH]; [reflexivity|].
  change (p :: setAt (S (List.length pre)) b (pre ++ x :: y :: post)
          = p :: (pre ++ x :: b :: post)).
  now rewrite IH.
Qed.

Lemma nth_error_split_two {A : Type} (l : list A) (k : nat) (x y : A) :
  nth_error l k = Some x -> nth_error l (S k) = Some y ->
  exists pre post, l = pre ++ x :: y :: post /\ List.length pre = k.
Proof.
  revert k. induction l as [|a l IH]; intros k Hx Hy.
  - destruct k; discriminate.
  - destruct k as [|k].
    + cbn in Hx. inversion Hx; subst. destruct l as [|b l]; [discriminate|].
      cbn in Hy. inversion Hy; subst. exists [], l. auto.
    + cbn in Hx. change (nth_error l (S k) = Some y) in Hy.
      destruct (IH k Hx Hy) as [pre [post [E L]]].
      exists (a :: pre), post. cbn. rewrite E, L. auto.
Qed.

Lemma findIndex_app_miss {A : Type} (f : A -> bool) (pre rest : list A) :
  (forall x, In x pre -> f x = false) ->
  findIndex f (pre ++ rest)
  = option_map (fun n => (List.length pre + n)%nat) (findIndex f rest).
Proof.
  induction pre as [|p pre IH]; intros H; cbn.
  - now destruct (findIndex f rest).
  - rewrite (H p) by now left. rewrite IH by (intros x Hx; apply H; now right).
    now destruct (findIndex f rest).
Qed.

Lemma findIndex_prefix_misses {A : Type} (f : A -> bool) (pre rest : list A) :
  findIndex f (pre ++ rest) = None
  \/ (exists n, findIndex f (pre ++ rest) = Some n
                /\ (List.length pre <= n)%nat) ->
  forall x, In x pre -> f x = false.
Proof.
  intros H x Hin. destruct (f x) eqn:Fx; [|reflexivity]. exfalso.
  apply In_nth_error in Hin. destruct Hin as [j Hj].
  assert (j < List.length pre)%nat as Hlt
      by (apply nth_error_Some; congruence).
  assert (nth_error (pre ++ rest) j = Some x) as Hj'
      by (rewrite nth_error_app1; assumption).
  destruct H as [H|[n [H Hn]]].
  - apply findIndex_None in H.
    assert (existsb f (pre ++ rest) = true) as E.
    { apply existsb_exists. exists x. split; [|exact Fx].
      eapply nth_error_In; eauto. }
    congruence.
  - destruct (findIndex_Some _ _ _ H) as [_ [_ Hmin]].
    assert (j < n)%nat as Hjn by lia.
    specialize (Hmin j x Hjn Hj'). congruence.
Qed.

(** What [moveItem] does, case by case: nothing, or it swaps the item with
    its neighbour and gives both the position of their new index. *)
Lemma moveItem_cases (itemId : string) (direction : Direction)
    (thrownAt : option nat) (items : list PlaylistItemType) :
  (moveItem itemId direction thrownAt items = (items, [])
   /\ (findIndex (hasId itemId) items = None
       \/ (direction = up /\ findIndex (hasId itemId) items = Some 0%nat)
       \/ (direction = down
           /\ findIndex (hasId itemId) items
              = Some (List.length items - 1)%nat)))
  \/ exists pre x y post,
       items = pre ++ x :: y :: post
       /\ fst (moveItem itemId direction thrownAt items)
          = pre ++ withPosition y (Z.of_nat (List.length pre))
                :: withPosition x (Z.of_nat (S (List.length pre))) :: post
       /\ ((direction = up
            /\ findIndex (hasId itemId) items = Some (S (List.length pre))
            /\ forall rid p,
                 In (UpdatePosition rid p)
                    (snd (moveItem itemId direction thrownAt items)) ->
                 (rid = id y /\ p = Z.of_nat (List.length pre))
                 \/ (rid = id x /\ p = Z.of_nat (S (List.length pre))))
           \/ (direction = down
               /\ findIndex (hasId itemId) items = Some (List.length pre)
               /\ forall rid p,
                    In (UpdatePosition rid p)
                       (snd (moveItem itemId direction thrownAt items)) ->
                    (rid = id y /\ p = Z.of_nat (List.length pre))
                    \/ (rid = id x /\ p = Z.of_nat (S (List.length pre))))).
Proof.
  unfold moveItem.
  destruct (findIndex (hasId itemId) items) as [i|] eqn:Fi; [|left; auto].
  destruct (findIndex_Some _ _ _ Fi) as [Hlt [[a [Ha _]] _]].
  assert (forall (upd : list Action) rid p r1 p1 r2 p2,
             upd = [UpdatePosition r1 p1; UpdatePosition r2 p2] ->
             In (UpdatePosition rid p)
                (match thrownAt with
                 | Some n =>
                     if (n <? 2)%nat
                     then firstn (S n) upd
                          ++ [LogError "Error moving playlist item:";
                              FetchPlaylist;
                              ShowToast "Error" "Failed to reorder playlist"
                                true]
                     else upd
                 | None => upd
                 end) ->
             (rid = r1 /\ p = p1) \/ (rid = r2 /\ p = p2)) as Hupd.
  { intros upd rid p r1 p1 r2 p2 -> Hin.
    destruct thrownAt as [[|[|n]]|]; cbn in Hin;
      repeat (destruct Hin as [Hin|Hin];
              [try discriminate Hin; inversion Hin; subst; auto|]);
      destruct Hin. }
  destruct direction; unfold targetIndex.
  - (* up *)
    destruct i as [|k].
    + left. cbn. split; [reflexivity|]. right; left. auto.
    + right.
      replace (Z.max 0 (Z.of_nat (S k) - 1)) with (Z.of_nat k) by lia.
      replace (Z.of_nat k =? Z.of_nat (S k))%Z with false
        by (symmetry; apply Z.eqb_neq; lia).
      rewrite Nat2Z.id, Ha.
      destruct (nth_error items k) as [d|] eqn:Hd;
        [|apply nth_error_None in Hd; lia].
      destruct (nth_error_split_two items k d a Hd Ha) as [pre [post [E L]]].
      exists pre, d, a, post. split; [exact E|]. subst k. split.
      * cbn [fst]. rewrite E. rewrite setAt_app_next, setAt_app_here.
        reflexivity.
      * left. split; [reflexivity|]. split; [reflexivity|].
        cbn [snd]. intros rid p Hin.
        eapply Hupd in Hin; [|reflexivity]. tauto.
  - (* down *)
    destruct (Nat.eq_dec (S i) (List.length items)) as [Hlast|Hmid].
    + left.
      replace (Z.min (Z.of_nat (List.length items) - 1) (Z.of_nat i + 1))
        with (Z.of_nat i) by lia.
      rewrite Z.eqb_refl. split; [reflexivity|]. right; right.
      split; [reflexivity|]. f_equal. lia.
    + right.
      replace (Z.min (Z.of_nat (List.length items) - 1) (Z.of_nat i + 1))
        with (Z.of_nat (S i)) by lia.
      replace (Z.of_nat (S i) =? Z.of_nat i)%Z with false
        by (symmetry; apply Z.eqb_neq; lia).
      rewrite Nat2Z.id, Ha.
      destruct (nth_error items (S i)) as [d|] eqn:Hd;
        [|apply nth_error_None in Hd; lia].
      destruct (nth_error_split_two items i a d Ha Hd) as [pre [post [E L]]].
      exists pre, a, d, post. split; [exact E|]. subst i. split.
      * cbn [fst]. rewrite E. rewrite setAt_app_here, setAt_app_next.
        reflexivity.
      * right. split; [reflexivity|]. split; [reflexivity|].
        cbn [snd]. intros rid p Hin.
        eapply Hupd in Hin; [|reflexivity]. tauto.
Qed.

Lemma content_withPosition (item : PlaylistItemType) (p : Z) :
  content (withPosition item p) = content item.
Proof. reflexivity. Qed.

(** X13.  [moveItem] never loses, duplicates or alters an item: the list
    it leaves has the same length and, positions aside, the same items. *)
Theorem moveItem_keeps_the_items :
  forall (itemId : string) (direction : Direction) (thrownAt : option nat)
         (items : list PlaylistItemType),
    List.length (fst (moveItem itemId direction thrownAt items))
    = List.length items
    /\ Permutation
         (map content (fst (moveItem itemId direction thrownAt items)))
         (map content items).
Proof.
  intros itemId direction thrownAt items.
  destruct (moveItem_cases itemId direction thrownAt items)
    as [[E _]|[pre [x [y [post [E [E' _]]]]]]].
  - rewrite E. split; [reflexivity|apply Permutation_refl].
  - rewrite E', E. split.
    + rewrite !length_app. reflexivity.
    + rewrite !map_app. cbn [map]. rewrite !content_withPosition.
      apply Permutation_app_head. apply perm_swap.
Qed.

Lemma hasId_withPosition (itemId : string) (item : PlaylistItemType) (p : Z) :
  hasId itemId (withPosition item p) = hasId itemId item.
Proof. reflexivity. Qed.

Lemma findIndex_here {A : Type} (f : A -> bool) (pre : list A) (x : A)
    (post : list A) :
  (forall z, In z pre -> f z = false) -> f x = true ->
  findIndex f (pre ++ x :: post) = Some (List.length pre).
Proof.
  intros Hpre Hx. rewrite findIndex_app_miss by exact Hpre.
  cbn. rewrite Hx. cbn. f_equal. lia.
Qed.

Lemma findIndex_first_match {A : Type} (f : A -> bool) (pre : list A) (x : A)
    (post : list A) :
  findIndex f (pre ++ x :: post) = Some (List.length pre) ->
  (forall z, In z pre -> f z = false) /\ f x = true.
Proof.
  intros H. split.
  - apply (findIndex_prefix_misses f pre (x :: post)). right.
    exists (List.length pre). split; [exact H|lia].
  - destruct (findIndex_Some _ _ _ H) as [_ [[z [Hz Fz]] _]].
    rewrite nth_error_app2, Nat.sub_diag in Hz by lia.
    cbn in Hz. inversion Hz; subst. exact Fz.
Qed.

(** X14.  A move shifts the item by exactly one place and never past an
    end: with rows identified by distinct ids, an item found at index [i]
    is afterwards found at [i - 1] after a move up (at 0 it stays) and at
    [i + 1] after a move down (at the last index it stays); an id the list
    does not hold changes nothing and asks nothing of the store. *)
Theorem moveItem_moves_one_place :
  forall (itemId : string) (thrownAt : option nat)
         (items : list PlaylistItemType),
    (forall i, findIndex (hasId itemId) items = Some i ->
       findIndex (hasId itemId) (fst (moveItem itemId up thrownAt items))
       = Some (i - 1)%nat
       /\ (NoDup (map id items) ->
           findIndex (hasId itemId) (fst (moveItem itemId down thrownAt items))
           = Some (Nat.min (List.length items - 1) (i + 1))))
    /\ (findIndex (hasId itemId) items = None ->
        forall direction,
          moveItem itemId direction thrownAt items = (items, [])).
Proof.
  intros itemId thrownAt items. split.
  - intros i Fi. split.
    + destruct (moveItem_cases itemId up thrownAt items)
        as [[E [C|[[_ C]|[C _]]]]|[pre [x [y [post [E [E' [[_ [C _]]|[C _]]]]]]]]];
        try discriminate C; try congruence.
      * rewrite E. rewrite Fi in C. inversion C; subst. exact Fi.
      * rewrite Fi in C. inversion C; subst i. rewrite E'.
        rewrite E in Fi.
        replace (pre ++ x :: y :: post) with ((pre ++ [x]) ++ y :: post) in Fi
          by (rewrite <- app_assoc; reflexivity).
        replace (S (List.length pre)) with (List.length (pre ++ [x])) in Fi
          by (rewrite length_app; cbn; lia).
        destruct (findIndex_first_match _ _ _ _ Fi) as [Hpre Hy].
        rewrite findIndex_here.
        -- f_equal. cbn. lia.
        -- intros z Hz. apply Hpre. apply in_or_app. now left.
        -- rewrite hasId_withPosition. exact Hy.
    + intros Hnd.
      destruct (moveItem_cases itemId down thrownAt items)
        as [[E [C|[[C _]|[_ C]]]]|[pre [x [y [post [E [E' [[C _]|[_ [C _]]]]]]]]]];
        try discriminate C; try congruence.
      * rewrite E. cbn [fst]. rewrite Fi in C. inversion C; subst i. rewrite Fi.
        f_equal. destruct (findIndex_Some _ _ _ Fi) as [Hlt _]. lia.
      * rewrite Fi in C. inversion C; subst i. rewrite E'.
        rewrite E in Fi. destruct (findIndex_first_match _ _ _ _ Fi)
          as [Hpre Hx].
        assert (hasId itemId y = false) as Hy.
        { destruct (hasId itemId y) eqn:Hy; [|reflexivity]. exfalso.
          unfold hasId in Hx, Hy. apply String.eqb_eq in Hx, Hy.
          rewrite E, map_app in Hnd. apply NoDup_remove_2 in Hnd.
          apply Hnd. apply in_or_app. right. cbn. left. congruence. }
        replace (pre ++ withPosition y (Z.of_nat (List.length pre))
                   :: withPosition x (Z.of_nat (S (List.length pre))) :: post)
          with ((pre ++ [withPosition y (Z.of_nat (List.length pre))])
                  ++ withPosition x (Z.of_nat (S (List.length pre))) :: post)
          by (rewrite <- app_assoc; reflexivity).
        rewrite findIndex_here.
        -- f_equal. rewrite E, !length_app. cbn. lia.
        -- intros z Hz. apply in_app_or in Hz. destruct Hz as [Hz|[Hz|[]]].
           ++ now apply Hpre.
           ++ subst z. rewrite hasId_withPosition. exact Hy.
        -- rewrite hasId_withPosition. exact Hx.
  - intros Fn direction. unfold moveItem. now rewrite Fn.
Qed.

Lemma moveItem_moves_one_place_witness :
  findIndex (hasId "i2") (fst (moveItem "i2" up None threeSongs))
  = Some 0%nat
  /\ findIndex (hasId "i2") (fst (moveItem "i2" down None threeSongs))
     = Some 2%nat
  /\ moveItem "zz" up None threeSongs = (threeSongs, []).
Proof.
  destruct (moveItem_moves_one_place "i2" None threeSongs) as [H _].
  destruct (H 1%nat eq_refl) as [Hup Hdown].
  split; [exact Hup|]. split.
  - apply Hdown. cbn. repeat constructor; cbn; intuition discriminate.
  - apply (proj2 (moveItem_moves_one_place "zz" None threeSongs)).
    reflexivity.
Defined.

Lemma dense_app_two (pre : list PlaylistItemType) (x y : PlaylistItemType)
    (post : list PlaylistItemType) :
  dense (pre ++ x :: y :: post) ->
  position x = Z.of_nat (List.length pre)
  /\ position y = Z.of_nat (S (List.length pre)).
Proof.
  intros H. split; apply H.
  - rewrite nth_error_app2, Nat.sub_diag by lia. reflexivity.
  - rewrite nth_error_app2 by lia.
    replace (S (List.length pre) - List.length pre)%nat with 1%nat by lia.
    reflexivity.
Qed.

(** X15.  [moveItem] keeps positions equal to indices: if every item's
    position is its index before the move, the same holds after it.  And
    whatever it writes to the store agrees with the list it then holds:
    each position write names a row that sits, in the new list, at the
    index written, with that position. *)
Theorem moveItem_keeps_positions_dense :
  forall (itemId : string) (direction : Direction) (thrownAt : option nat)
         (items : list PlaylistItemType),
    (dense items -> dense (fst (moveItem itemId direction thrownAt items)))
    /\ (forall rid p,
          In (UpdatePosition rid p)
             (snd (moveItem itemId direction thrownAt items)) ->
          exists item,
            nth_error (fst (moveItem itemId direction thrownAt items))
              (Z.to_nat p) = Some item
            /\ id item = rid /\ position item = p).
Proof.
  intros itemId direction thrownAt items.
  destruct (moveItem_cases itemId direction thrownAt items)
    as [[E _]|[pre [x [y [post [E [E' Hw]]]]]]].
  - rewrite E. split; [auto|]. intros rid p [].
  - rewrite E'. split.
    + intros Hd i item Hi. rewrite E in Hd.
      destruct (Nat.lt_ge_cases i (List.length pre)) as [Hlt|Hge].
      * apply Hd. rewrite nth_error_app1 in Hi |- * by exact Hlt. exact Hi.
      * rewrite nth_error_app2 in Hi by exact Hge.
        destruct (i - List.length pre)%nat as [|[|m]] eqn:Hm; cbn in Hi.
        -- inversion Hi; subst. cbn. f_equal. lia.
        -- inversion Hi; subst. cbn. f_equal. lia.
        -- apply Hd. rewrite nth_error_app2 by exact Hge. rewrite Hm.
           exact Hi.
    + assert (forall rid p,
                 (rid = id y /\ p = Z.of_nat (List.length pre))
                 \/ (rid = id x /\ p = Z.of_nat (S (List.length pre))) ->
                 exists item,
                   nth_error
                     (pre ++ withPosition y (Z.of_nat (List.length pre))
                        :: withPosition x (Z.of_nat (S (List.length pre)))
                        :: post) (Z.to_nat p) = Some item
                   /\ id item = rid /\ position item = p) as Hloc.
      { intros rid p [[-> ->]|[-> ->]]; rewrite Nat2Z.id.
        - exists (withPosition y (Z.of_nat (List.length pre))).
          rewrite nth_error_app2, Nat.sub_diag by lia. auto.
        - exists (withPosition x (Z.of_nat (S (List.length pre)))).
          rewrite nth_error_app2 by lia.
          replace (S (List.length pre) - List.length pre)%nat with 1%nat
            by lia.
          auto. }
      intros rid p Hin. apply Hloc.
      destruct Hw as [[_ [_ Hw]]|[_ [_ Hw]]]; now apply Hw.
Qed.

Lemma moveItem_keeps_positions_dense_witness :
  dense threeSongs
  /\ dense (fst (moveItem "i3" up (Some 0%nat) threeSongs)).
Proof.
  assert (dense threeSongs) as H.
  { intros [|[|[|i]]] item Hi; cbn in Hi; inversion Hi; subst; try reflexivity.
    destruct i; discriminate. }
  split; [exact H|].
  apply (proj1 (moveItem_keeps_positions_dense "i3" up (Some 0%nat)
                  threeSongs)).
  exact H.
Defined.

Lemma withPosition_own (item : PlaylistItemType) (p : Z) :
  position item = p -> withPosition item p = item.
Proof. intros <-. now destruct item. Qed.

(** X16.  Up then down is a round trip: on a list whose positions equal
    the indices, moving an item that is not first up and then down again
    gives back the list exactly as it was. *)
Theorem moveItem_up_down_round_trip :
  forall (itemId : string) (thrown1 thrown2 : option nat)
         (items : list PlaylistItemType) (k : nat),
    dense items ->
    findIndex (hasId itemId) items = Some (S k) ->
    fst (moveItem itemId down thrown2
           (fst (moveItem itemId up thrown1 items)))
    = items.
Proof.
  intros itemId thrown1 thrown2 items k Hd Fi.
  destruct (moveItem_cases itemId up thrown1 items)
    as [[_ [C|[[_ C]|[C _]]]]|[pre [x [y [post [E [E' [[_ [C _]]|[C _]]]]]]]]];
    try discriminate C; try congruence.
  rewrite Fi in C. inversion C; subst k. clear C.
  rewrite E in Hd. destruct (dense_app_two _ _ _ _ Hd) as [Px Py].
  rewrite E in Fi.
  replace (pre ++ x :: y :: post) with ((pre ++ [x]) ++ y :: post) in Fi
    by (rewrite <- app_assoc; reflexivity).
  replace (S (List.length pre)) with (List.length (pre ++ [x])) in Fi
    by (rewrite length_app; cbn; lia).
  destruct (findIndex_first_match _ _ _ _ Fi) as [Hpre Hy].
  rewrite E'.
  set (l1 := pre ++ withPosition y (Z.of_nat (List.length pre))
               :: withPosition x (Z.of_nat (S (List.length pre))) :: post).
  assert (findIndex (hasId itemId) l1 = Some (List.length pre)) as F1.
  { apply findIndex_here.
    - intros z Hz. apply Hpre. apply in_or_app. now left.
    - exact Hy. }
  destruct (moveItem_cases itemId down thrown2 l1)
    as [[_ [C|[[C _]|[_ C]]]]|[pre2 [x2 [y2 [post2 [E2 [E2' [[C _]|[_ [C _]]]]]]]]]];
    try discriminate C; try congruence.
  - exfalso. rewrite F1 in C. inversion C as [C'].
    unfold l1 in C'. rewrite length_app in C'. cbn in C'. lia.
  - rewrite F1 in C. inversion C as [C'].
    unfold l1 in E2.
    assert (pre = pre2) as Hp.
    { apply (f_equal (firstn (List.length pre))) in E2.
      rewrite firstn_app, Nat.sub_diag, firstn_all in E2. cbn in E2.
      rewrite C', firstn_app, Nat.sub_diag, firstn_all in E2. cbn in E2.
      now rewrite !app_nil_r in E2. }
    subst pre2. apply app_inv_head in E2. inversion E2; subst x2 y2 post2.
    rewrite E2', E. f_equal.
    assert (forall a q p, withPosition (withPosition a q) p = withPosition a p)
      as Hww by reflexivity.
    rewrite !Hww, (withPosition_own x), (withPosition_own y) by assumption.
    reflexivity.
Qed.

Lemma moveItem_up_down_round_trip_witness :
  fst (moveItem "i3" down None (fst (moveItem "i3" up None threeSongs)))
  = threeSongs.
Proof.
  apply (moveItem_up_down_round_trip "i3" None None threeSongs 1%nat).
  - intros [|[|[|i]]] item Hi; cbn in Hi; inversion Hi; subst; try reflexivity.
    destruct i; discriminate.
  - reflexivity.
Defined.

(** ** Removing an item *)

Lemma StronglySorted_filter_keeps {A : Type} (R : A -> A -> Prop)
    (f : A -> bool) (l : list A) :
  StronglySorted R l -> StronglySorted R (filter f l).
Proof.
  induction 1 as [|a l Hs IH Hall]; cbn.
  - constructor.
  - destruct (f a); [|exact IH]. constructor; [exact IH|].
    apply Forall_forall. intros x Hx. apply filter_In in Hx.
    rewrite Forall_forall in Hall. apply Hall. tauto.
Qed.

(** X17.  When the store refuses the delete, [removeItem] leaves the list
    as it is and shows the error.  When it accepts, exactly the items with
    another id stay, each as it was, and in their order: a list in
    increasing order of position stays so.  The positions are not
    renumbered, so all the move needs afterwards is the order, not
    positions without gaps. *)
Theorem removeItem_outcomes :
  forall (itemId : string) (items : list PlaylistItemType),
    removeItem itemId true items
    = (items,
       [DeleteRow itemId; LogError "Error removing playlist item:";
        ShowToast "Error" "Failed to remove video" true])
    /\ (forall item,
          In item (fst (removeItem itemId false items))
          <-> In item items /\ id item <> itemId)
    /\ (StronglySorted (fun a b => (position a < position b)%Z) items ->
        StronglySorted (fun a b => (position a < position b)%Z)
          (fst (removeItem itemId false items)))
    /\ (NoDup (map id items) ->
        List.length (fst (removeItem itemId false items))
        = if existsb (hasId itemId) items
          then (List.length items - 1)%nat else List.length items).
Proof.
  intros itemId items. split; [reflexivity|]. split; [|split].
  - intros item. cbn. rewrite filter_In. unfold hasId.
    rewrite negb_true_iff, String.eqb_neq. reflexivity.
  - apply StronglySorted_filter_keeps.
  - cbn. induction items as [|a l IH]; intros Hnd; [reflexivity|].
    cbn in Hnd. inversion Hnd as [|x xs Hnotin Hnd']; subst.
    cbn. destruct (hasId itemId a) eqn:Ha; cbn.
    + assert (existsb (hasId itemId) l = false) as Hl.
      { destruct (existsb (hasId itemId) l) eqn:El; [|reflexivity].
        exfalso. apply existsb_exists in El. destruct El as [z [Hz Fz]].
        unfold hasId in Ha, Fz. apply String.eqb_eq in Ha, Fz.
        apply Hnotin. rewrite Ha, <- Fz. now apply in_map. }
      rewrite (IH Hnd'), Hl. lia.
    + rewrite (IH Hnd').
      destruct (existsb (hasId itemId) l) eqn:El; [|reflexivity].
      apply existsb_exists in El. destruct El as [z [Hz _]].
      destruct l; [destruct Hz|]. cbn. lia.
Qed.

Lemma removeItem_outcomes_witness :
  map position (fst (removeItem "i2" false threeSongs)) = [0%Z; 2%Z]
  /\ StronglySorted (fun a b => (position a < position b)%Z)
       (fst (removeItem "i2" false threeSongs)).
Proof.
  split; [reflexivity|].
  apply (removeItem_outcomes "i2" threeSongs).
  repeat constructor.
Defined.

(** ** The position given to a new row *)

Lemma topPosition_bounds (positions : list Z) :
  match topPosition positions with
  | None => positions = []
  | Some q => In q positions /\ forall p, In p positions -> (p <= q)%Z
  end.
Proof.
  induction positions as [|a l IH]; cbn; [reflexivity|].
  destruct (topPosition l) as [q|].
  - destruct IH as [Hin Hmax]. split.
    + destruct (Z.max_spec a q) as [[_ ->]|[_ ->]]; auto.
    + intros p [<-|Hp]; [lia|]. specialize (Hmax p Hp). lia.
  - subst l. split; [now left|]. intros p [<-|[]]. lia.
Qed.

Lemma nextPosition_above (positions : list Z) (p : Z) :
  In p positions -> (p < nextPosition (topPosition positions))%Z.
Proof.
  intros Hp. pose proof (topPosition_bounds positions) as B.
  unfold nextPosition. destruct (topPosition positions) as [q|].
  - destruct B as [_ Hmax]. specialize (Hmax p Hp). lia.
  - subst positions. destruct Hp.
Qed.

(** X18.  The position computed for a new row is 0 for an empty playlist
    and otherwise one more than the greatest position in use: it is
    greater than every position in use, so appending keeps positions
    distinct and increasing, whatever gaps removals have left. *)
Theorem nextPosition_is_fresh :
  forall (positions : list Z),
    nextPosition (topPosition []) = 0%Z
    /\ (forall p, In p positions ->
          (p < nextPosition (topPosition positions))%Z)
    /\ (positions <> [] ->
        In (nextPosition (topPosition positions) - 1)%Z positions)
    /\ (StronglySorted Z.lt positions ->
        StronglySorted Z.lt
          (positions ++ [nextPosition (topPosition positions)])).
Proof.
  intros positions. pose proof (topPosition_bounds positions) as B.
  split; [reflexivity|].
  assert (forall p, In p positions ->
                    (p < nextPosition (topPosition positions))%Z) as Hfresh
    by (intros p Hp; now apply nextPosition_above).
  split; [exact Hfresh|]. split.
  - intros Hne. unfold nextPosition.
    destruct (topPosition positions) as [q|]; [|contradiction].
    replace (q + 1 - 1)%Z with q by lia. tauto.
  - intros Hs. clear B. revert Hfresh.
    generalize (nextPosition (topPosition positions)). intros n Hfresh.
    induction Hs as [|a l Hs IH Hall]; cbn.
    + repeat constructor.
    + constructor.
      * apply IH. intros p Hp. apply Hfresh. now right.
      * apply Forall_app. split; [exact Hall|].
        constructor; [|constructor]. apply Hfresh. now left.
Qed.

Lemma nextPosition_is_fresh_witness :
  nextPosition (topPosition [0; 2; 5]%Z) = 6%Z
  /\ StronglySorted Z.lt ([0; 2; 5]%Z ++ [nextPosition (topPosition [0; 2; 5]%Z)]).
Proof.
  split; [reflexivity|].
  apply (nextPosition_is_fresh [0; 2; 5]%Z).
  repeat constructor.
Defined.

(** ** Saving the room playlist to a user playlist *)

Lemma existingItems_app (t1 t2 : list UserPlaylistItem)
    (playlistId videoId userId : string) :
  existingItems (t1 ++ t2) playlistId videoId userId
  = existingItems t1 playlistId videoId userId
    ++ existingItems t2 playlistId videoId userId.
Proof. unfold existingItems. apply filter_app. Qed.

Lemma existingItems_own (playlistId userId videoId ttl : string) (p : Z) :
  existingItems [mkRow playlistId userId videoId ttl p] playlistId videoId
    userId <> [].
Proof.
  unfold existingItems. cbn. rewrite !String.eqb_refl. discriminate.
Qed.

Lemma existingItems_other (playlistId userId v w ttl : string) (p : Z) :
  existingItems [mkRow playlistId userId v ttl p] playlistId w userId = [] ->
  v <> w.
Proof.
  intros H E. subst w. now apply existingItems_own in H.
Qed.

Lemma currentTop_fresh (table : list UserPlaylistItem) (playlistId : string)
    (r : UserPlaylistItem) :
  In r table -> row_playlist_id r = playlistId ->
  (row_position r < nextPosition (currentTop table playlistId))%Z.
Proof.
  intros Hin Hpid. unfold currentTop.
  apply nextPosition_above. apply in_map. apply filter_In.
  split; [exact Hin|]. now apply String.eqb_eq.
Qed.

Lemma saveLoop_adds (insertFails : list UserPlaylistItem -> UserPlaylistItem -> bool)
    (userId playlistId : string) (items : list PlaylistItemType) :
  forall (table : list UserPlaylistItem) (n : nat),
  exists added,
    saveLoop insertFails userId playlistId items table n
    = (table ++ added, (n + List.length added)%nat)
    /\ addedBy userId playlistId items table added.
Proof.
  induction items as [|item rest IH]; intros table n.
  - exists []. cbn. rewrite app_nil_r, Nat.add_0_r.
    split; [reflexivity|]. repeat split; constructor.
  - cbn [saveLoop].
    assert (forall added,
               addedBy userId playlistId rest table added ->
               addedBy userId playlistId (item :: rest) table added) as Hweak.
    { intros added [Hall [Hnd Hs]]. split; [|split; assumption].
      eapply Forall_impl; [|exact Hall].
      intros r [H1 [H2 [[it [Hi Hv]] H4]]].
      split; [exact H1|]. split; [exact H2|]. split; [|exact H4].
      exists it. split; [now right|exact Hv]. }
    destruct (existingItems table playlistId (video_id item) userId) eqn:Ex.
    + set (row := mkRow playlistId userId (video_id item) (title item)
                    (nextPosition (currentTop table playlistId))).
      destruct (insertFails table row).
      * destruct (IH table n) as [added [E Had]].
        exists added. split; [exact E|]. now apply Hweak.
      * destruct (IH (table ++ [row]) (S n)) as [added [E [Hall [Hnd Hs]]]].
        exists (row :: added). split.
        { rewrite E. rewrite <- app_assoc. cbn. f_equal. lia. }
        rewrite Forall_forall in Hall.
        split; [|split].
        -- constructor.
           ++ split; [reflexivity|]. split; [reflexivity|]. split.
              ** exists item. split; [now left|]. split; reflexivity.
              ** split; [exact Ex|]. intros old Hold Hpid.
                 now apply currentTop_fresh.
           ++ apply Forall_forall. intros r Hr.
              destruct (Hall r Hr) as [H1 [H2 [[it [Hi Hv]] [H4 H5]]]].
              split; [exact H1|]. split; [exact H2|]. split.
              ** exists it. split; [now right|exact Hv].
              ** split.
                 --- rewrite existingItems_app in H4.
                     now apply app_eq_nil in H4.
                 --- intros old Hold. apply H5. apply in_or_app. now left.
        -- cbn. constructor; [|exact Hnd]. intros Hin.
           apply in_map_iff in Hin. destruct Hin as [r [Hv Hr]].
           destruct (Hall r Hr) as [_ [_ [_ [H4 _]]]].
           rewrite existingItems_app in H4. apply app_eq_nil in H4.
           destruct H4 as [_ H4]. apply existingItems_other in H4.
           cbn in Hv. congruence.
        -- cbn. constructor; [exact Hs|]. apply Forall_forall.
           intros p Hp. apply in_map_iff in Hp. destruct Hp as [r [<- Hr]].
           destruct (Hall r Hr) as [_ [_ [_ [_ H5]]]].
           apply (H5 row); [apply in_or_app; right; now left|reflexivity].
    + destruct (IH table n) as [added [E Had]].
      exists added. split; [exact E|]. now apply Hweak.
Qed.


Lemma saveLoop_all_saved (insertFails : list UserPlaylistItem -> UserPlaylistItem -> bool)
    (userId playlistId : string) (items : list PlaylistItemType) :
  forall (table : list UserPlaylistItem) (n : nat),
    (forall item, In item items ->
       existingItems table playlistId (video_id item) userId <> []) ->
    saveLoop insertFails userId playlistId items table n = (table, n).
Proof.
  induction items as [|item rest IH]; intros table n Hall; [reflexivity|].
  cbn [saveLoop].
  destruct (existingItems table playlistId (video_id item) userId) eqn:Ex.
  - exfalso. apply (Hall item); [now left|exact Ex].
  - apply IH. intros it Hit. apply Hall. now right.
Qed.

Lemma saveLoop_saves_all (userId playlistId : string)
    (items : list PlaylistItemType) :
  forall (table : list UserPlaylistItem) (n : nat) (item : PlaylistItemType),
    In item items ->
    existingItems (fst (saveLoop neverFails userId playlistId items table n))
      playlistId (video_id item) userId <> [].
Proof.
  induction items as [|a rest IH]; intros table n item Hin; [destruct Hin|].
  assert (forall t m,
             existingItems t playlistId (video_id item) userId <> [] ->
             existingItems
               (fst (saveLoop neverFails userId playlistId rest t m))
               playlistId (video_id item) userId <> []) as Hkeep.
  { intros t m Hex.
    destruct (saveLoop_adds neverFails userId playlistId rest t m)
      as [added [E _]].
    rewrite E. cbn [fst]. rewrite existingItems_app. intros H.
    apply app_eq_nil in H. tauto. }
  cbn [saveLoop].
  destruct (existingItems table playlistId (video_id a) userId) eqn:Ex.
  - unfold neverFails at 1. destruct Hin as [<-|Hin].
    + apply Hkeep. rewrite existingItems_app. intros H.
      apply app_eq_nil in H. destruct H as [_ H].
      now apply existingItems_own in H.
    + now apply IH.
  - destruct Hin as [<-|Hin].
    + apply Hkeep. rewrite Ex. discriminate.
    + now apply IH.
Qed.


